(** * Advanced File Manager: the in-memory store, search and tree projection

    A shallow embedding of the parts of [src/script.js]
    (class [AdvancedFileManager]) that hold the file records, validate
    ingested files, rename and edit records, reorder them, search them and
    project them into a directory tree; followed by the properties of
    these operations.

    Conventions of the embedding.
    - A JavaScript string is the list of its UTF-16 code units.
    - [this.files] is a list of records; a record mutated in place through
      the reference returned by [Array.prototype.find] is the first record
      of the list with that id, replaced by its updated value.
    - The page is represented by the elements that the operations look
      up (file blocks and the elements with an id); an operation takes
      the page it runs on as an argument, and [document.getElementById]
      is a lookup in it.  The rendering functions give the elements whose
      tags the templates write, which are the elements of the page as
      long as no string of a record that a template interpolates holds a
      markup character ([markupFree]); properties that take the page
      from a rendering function say so.
    - Toasts are the observable outcome of an operation and are returned
      next to the new store. *)

From Stdlib Require Import String Ascii.
From Stdlib Require Import List ZArith NArith Lia Bool Arith Permutation.
From Stdlib Require Import Sorted.
Import ListNotations.

Set Implicit Arguments.

(* ================================================================= *)
(** ** JavaScript strings *)

Module JS.

(** A string value: its sequence of UTF-16 code units. *)
Definition jsstring := list N.

(** Literal strings of the source, written in ASCII. *)
Definition js (s : string) : jsstring :=
  map N_of_ascii (list_ascii_of_string s).

Definition jsstring_eq_dec : forall a b : jsstring, {a = b} + {a <> b} :=
  list_eq_dec N.eq_dec.

Definition eqb (a b : jsstring) : bool :=
  if jsstring_eq_dec a b then true else false.

(** [text] begins with [term], code unit by code unit. *)
Fixpoint startsWith (term text : jsstring) : bool :=
  match term, text with
  | [], _ => true
  | _ :: _, [] => false
  | c :: term', d :: text' => N.eqb c d && startsWith term' text'
  end.

(** First position at or after [pos] (the position of the head of
    [text]) where [term] occurs. *)
Fixpoint indexOfAt (term text : jsstring) (pos : nat) : option nat :=
  match text with
  | [] => match term with [] => Some pos | _ :: _ => None end
  | _ :: rest =>
      if startsWith term text then Some pos
      else indexOfAt term rest (S pos)
  end.

(** [text.indexOf(term, from)]; [None] stands for [-1].  A start
    position past the end is clamped to the length. *)
Definition indexOf (text term : jsstring) (from : nat) : option nat :=
  indexOfAt term (skipn from text) (Nat.min from (length text)).

(** [text.includes(term)]. *)
Definition includes (text term : jsstring) : bool :=
  match indexOf text term 0 with Some _ => true | None => false end.

(** [text.endsWith(suffix)]. *)
Definition endsWith (text suffix : jsstring) : bool :=
  startsWith (rev suffix) (rev text).

(** [text.lastIndexOf(".")] for a one-unit pattern [c]; [None] is [-1]. *)
Fixpoint lastIndexOfAt (c : N) (text : jsstring) (pos : nat) : option nat :=
  match text with
  | [] => None
  | d :: rest =>
      match lastIndexOfAt c rest (S pos) with
      | Some p => Some p
      | None => if N.eqb c d then Some pos else None
      end
  end.

Definition lastIndexOf (text : jsstring) (c : N) : option nat :=
  lastIndexOfAt c text 0.

(** [text.substring(start)], where a negative start counts as [0]. *)
Definition substringFrom (text : jsstring) (start : option nat) : jsstring :=
  match start with Some p => skipn p text | None => text end.

(** [text.split("/")] for a one-unit separator: never the empty list. *)
Fixpoint split (sep : N) (text : jsstring) : list jsstring :=
  match text with
  | [] => [[]]
  | c :: rest =>
      if N.eqb c sep then [] :: split sep rest
      else match split sep rest with
           | part :: parts => (c :: part) :: parts
           | [] => [[c]]
           end
  end.

(** White space and line terminators removed by [String.prototype.trim]. *)
Definition isWhiteSpace (c : N) : bool :=
  ((9 <=? c) && (c <=? 13) || (c =? 32) || (c =? 160) || (c =? 5760)
   || (8192 <=? c) && (c <=? 8202) || (c =? 8232) || (c =? 8233)
   || (c =? 8239) || (c =? 8287) || (c =? 12288) || (c =? 65279))%N.

Fixpoint trimStart (text : jsstring) : jsstring :=
  match text with
  | [] => []
  | c :: rest => if isWhiteSpace c then trimStart rest else text
  end.

(** [text.trim()]. *)
Definition trim (text : jsstring) : jsstring :=
  rev (trimStart (rev (trimStart text))).

Definition isHighSurrogate (c : N) : bool :=
  ((55296 <=? c) && (c <=? 56319))%N.
Definition isLowSurrogate (c : N) : bool :=
  ((56320 <=? c) && (c <=? 57343))%N.

(** Number of bytes of the UTF-8 encoding of a string, as [TextEncoder]
    or [Blob] produce it: a surrogate pair takes four bytes, a lone
    surrogate is replaced by U+FFFD (three bytes). *)
Fixpoint utf8Length (text : jsstring) : nat :=
  match text with
  | [] => 0
  | c :: rest =>
      if (c <? 128)%N then 1 + utf8Length rest
      else if (c <? 2048)%N then 2 + utf8Length rest
      else if isHighSurrogate c then
        match rest with
        | d :: rest' =>
            if isLowSurrogate d then 4 + utf8Length rest'
            else 3 + utf8Length rest
        | [] => 3
        end
      else 3 + utf8Length rest
  end.

(** A regular expression that is one character class, [/[...]/.test(s)]. *)
Definition testClass (class : N -> bool) (text : jsstring) : bool :=
  existsb class text.

End JS.

Import JS.

(* ================================================================= *)
(** ** Data model *)

(** What a [FileReader] leaves in [e.target.result]: a string
    ([readAsText], [readAsDataURL]) or an [ArrayBuffer]. *)
Inductive Content : Type :=
| Str (text : jsstring)
| Buf (bytes : list N).

(** A browser [File] as the picker or a drop hands it over.
    [rawRelativePath] is the property that [collectEntryFiles] adds to
    files found in dropped directories, absent otherwise. *)
Record RawFile : Type := mkRawFile {
  rawName : jsstring;
  rawSize : Z;
  rawType : jsstring;
  rawLastModified : Z;
  rawRelativePath : option jsstring
}.

(** The object built by [processFileAsync] and kept in [this.files].
    Ids are numbers compared with [===]; only their equality is used. *)
Record FileObj : Type := mkFileObj {
  id : Z;
  name : jsstring;
  size : Z;
  type : jsstring;
  lastModified : Z;
  relativePath : jsstring;
  content : Content;
  isImage : bool;
  isVideo : bool;
  isAudio : bool;
  isBinary : bool;
  isHTML : bool
}.

Definition setName (f : FileObj) (newName : jsstring) : FileObj :=
  mkFileObj (id f) newName (size f) (type f) (lastModified f)
    (relativePath f) (content f)
    (isImage f) (isVideo f) (isAudio f) (isBinary f) (isHTML f).

Definition setRelativePath (f : FileObj) (path : jsstring) : FileObj :=
  mkFileObj (id f) (name f) (size f) (type f) (lastModified f)
    path (content f)
    (isImage f) (isVideo f) (isAudio f) (isBinary f) (isHTML f).

Definition setContent (f : FileObj) (c : Content) : FileObj :=
  mkFileObj (id f) (name f) (size f) (type f) (lastModified f)
    (relativePath f) c
    (isImage f) (isVideo f) (isAudio f) (isBinary f) (isHTML f).

Definition setSize (f : FileObj) (n : Z) : FileObj :=
  mkFileObj (id f) (name f) n (type f) (lastModified f)
    (relativePath f) (content f)
    (isImage f) (isVideo f) (isAudio f) (isBinary f) (isHTML f).

(** [this.currentView]. *)
Inductive View : Type := ListView | TreeView | CodeView.

(** One entry of [this.searchMatches]. *)
Inductive MatchField : Type := InName | InContent.

Record SearchMatch : Type := mkSearchMatch {
  fileId : Z;
  matchType : MatchField;
  position : nat;
  matchIndex : nat
}.

(** The fields of the manager that the modelled operations read or
    write. *)
Record Manager : Type := mkManager {
  files : list FileObj;
  isProcessing : bool;
  currentView : View;
  useRelativePaths : bool;
  searchTerm : jsstring;
  searchMatches : list SearchMatch;
  currentMatchIndex : nat
}.

Definition setFiles (m : Manager) (fs : list FileObj) : Manager :=
  mkManager fs (isProcessing m) (currentView m) (useRelativePaths m)
    (searchTerm m) (searchMatches m) (currentMatchIndex m).

Definition setSearchMatches (m : Manager) (ms : list SearchMatch) : Manager :=
  mkManager (files m) (isProcessing m) (currentView m) (useRelativePaths m)
    (searchTerm m) ms (currentMatchIndex m).

(** The state left by the constructor. *)
Definition initialManager : Manager :=
  mkManager [] false ListView true [] [] 0.

(** [this.files.find((f) => f.id === fileId)]. *)
Definition findFile (fs : list FileObj) (fileId : Z) : option FileObj :=
  find (fun f => Z.eqb (id f) fileId) fs.

(** The store after the object found by [findFile] has been mutated in
    place by [change]: the first record with that id is updated, the
    others and the order are left alone. *)
Fixpoint mutateFile (fs : list FileObj) (fileId : Z)
    (change : FileObj -> FileObj) : list FileObj :=
  match fs with
  | [] => []
  | f :: rest =>
      if Z.eqb (id f) fileId then change f :: rest
      else f :: mutateFile rest fileId change
  end.

(* ================================================================= *)
(** ** Ingestion: [handleFileSelect] and [processFileAsync] *)

(** Why the validation loop of [handleFileSelect] pushes an error for a
    file, or [Valid] when it reaches [validFiles.push(file)]. *)
Inductive Verdict : Type :=
| EmptyFile
| FileTooLarge
| UnsupportedFileType
| FileAlreadyExists
| InvalidCharactersInFilename
| Valid.

(** [const maxFileSize = 50 * 1024 * 1024]. *)
Definition maxFileSize : Z := 50 * 1024 * 1024.

(** [allowedTypes] of [handleFileSelect]. *)
Definition allowedTypes : list jsstring :=
  map js
    [ "text/plain"; "text/html"; "text/css"; "text/javascript";
      "application/json"; "text/markdown"; "text/xml"; "text/csv";
      "image/jpeg"; "image/png"; "image/gif"; "image/svg+xml";
      "video/mp4"; "audio/mp3"; "application/pdf" ]%string.

(** [textExtensions] of [isTextFile]. *)
Definition textExtensions : list jsstring :=
  map js
    [ ".txt"; ".md"; ".js"; ".ts"; ".jsx"; ".tsx"; ".css"; ".scss";
      ".html"; ".xml"; ".json"; ".yaml"; ".yml"; ".py"; ".java"; ".cpp";
      ".c"; ".php"; ".rb"; ".go"; ".sql"; ".sh" ]%string.

(** [binaryTypes] of [isBinaryFile]. *)
Definition binaryTypes : list jsstring :=
  map js
    [ "application/pdf"; "application/zip"; "application/x-rar-compressed";
      "application/x-7z-compressed"; "application/vnd.ms-excel";
      "application/vnd.openxmlformats-officedocument.spreadsheetml.sheet";
      "application/octet-stream" ]%string.

(** [array.includes(s)] and [set.has(s)] on strings. *)
Definition member (s : jsstring) (l : list jsstring) : bool :=
  existsb (JS.eqb s) l.

(** [isBinaryFile(type)]. *)
Definition isBinaryFile (t : jsstring) : bool :=
  match t with
  | [] => false
  | _ :: _ => member t binaryTypes || includes t (js "binary")
  end.

(** The character class of [invalidChars] in [saveFileName]: the
    characters < > : / \ | ? * and the double quote. *)
Definition reservedChar (c : N) : bool :=
  ((c =? 60) || (c =? 62) || (c =? 58) || (c =? 34) || (c =? 47)
   || (c =? 92) || (c =? 124) || (c =? 63) || (c =? 42))%N.

(** The character class of [invalidChars] in [handleFileSelect]: the
    same characters and the code units 0x00 to 0x1f. *)
Definition reservedOrControlChar (c : N) : bool :=
  reservedChar c || (c <=? 31)%N.

(** The predicate handed to [this.files.some] in [handleFileSelect]:
    same name, same size, modification times less than 1000 ms apart. *)
Definition sameFile (f : FileObj) (file : RawFile) : bool :=
  JS.eqb (name f) (rawName file)
  && Z.eqb (size f) (rawSize file)
  && Z.ltb (Z.abs (lastModified f - rawLastModified file)) 1000.

Definition isDuplicate (fs : list FileObj) (file : RawFile) : bool :=
  existsb (fun f => sameFile f file) fs.

Section Host.

(** [String.prototype.toLowerCase], a builtin of the host. *)
Variable toLowerCase : jsstring -> jsstring.

(** The outcome of the [FileReader] for a file, by read method; [None]
    when the read fails, is aborted or times out. *)
Variable readAsDataURL : RawFile -> option jsstring.
Variable readAsArrayBuffer : RawFile -> option (list N).
Variable readAsText : RawFile -> option jsstring.

(** [Date.now() + Math.random()] at the time the file is read. *)
Variable newId : RawFile -> Z.

(** [isTextFile(filename)]: the index of the last dot is taken in the
    name as given, the extension is cut from the lower-cased name. *)
Definition isTextFile (filename : jsstring) : bool :=
  let ext :=
    substringFrom (toLowerCase filename) (lastIndexOf filename 46) in
  member ext textExtensions.

(** One turn of the validation loop, against the store as it is when
    the batch starts. *)
Definition validateFile (fs : list FileObj) (file : RawFile) : Verdict :=
  if Z.eqb (rawSize file) 0 then EmptyFile
  else if Z.gtb (rawSize file) maxFileSize then FileTooLarge
  else if negb (member (rawType file) allowedTypes)
          && negb (isTextFile (rawName file)) then UnsupportedFileType
  else if isDuplicate fs file then FileAlreadyExists
  else if testClass reservedOrControlChar (rawName file)
       then InvalidCharactersInFilename
  else Valid.

Definition isValid (fs : list FileObj) (file : RawFile) : bool :=
  match validateFile fs file with Valid => true | _ => false end.

(** The read started by [processFileAsync], chosen by the declared
    type. *)
Definition readFile (file : RawFile) : option Content :=
  if startsWith (js "image/") (rawType file)
     || startsWith (js "video/") (rawType file)
     || startsWith (js "audio/") (rawType file)
  then option_map Str (readAsDataURL file)
  else if isBinaryFile (rawType file)
  then option_map Buf (readAsArrayBuffer file)
  else option_map Str (readAsText file).

(** The object built in [reader.onload]. *)
Definition makeFileObj (file : RawFile) (result : Content) : FileObj :=
  {| id := newId file;
     name := rawName file;
     size := rawSize file;
     type := match rawType file with
             | [] => js "application/octet-stream"
             | _ :: _ => rawType file
             end;
     lastModified := rawLastModified file;
     relativePath := match rawRelativePath file with
                     | Some (c :: p) => c :: p
                     | Some [] | None => rawName file
                     end;
     content := result;
     isImage := startsWith (js "image/") (rawType file)
                && negb (endsWith (rawName file) (js ".svg"));
     isVideo := startsWith (js "video/") (rawType file);
     isAudio := startsWith (js "audio/") (rawType file);
     isBinary := isBinaryFile (rawType file);
     isHTML := endsWith (rawName file) (js ".html")
               || endsWith (rawName file) (js ".htm") |}.

(** [processFileAsync(file)]: on a successful read the new object is
    pushed on [this.files]; a failed read leaves the store alone. *)
Definition processFileAsync (fs : list FileObj) (file : RawFile)
    : list FileObj :=
  match readFile file with
  | Some result => fs ++ [makeFileObj file result]
  | None => fs
  end.

(** [handleFileSelect(files)]: nothing happens for an empty selection
    or while a batch is in flight; otherwise every file is validated
    against the store as it stands, and then the valid ones are read
    and pushed one after the other. *)
Definition handleFileSelect (m : Manager) (batch : list RawFile) : Manager :=
  match batch with
  | [] => m
  | _ :: _ =>
      if isProcessing m then m
      else
        let validFiles := filter (isValid (files m)) batch in
        setFiles m (fold_left processFileAsync validFiles (files m))
  end.

End Host.

(* ================================================================= *)
(** ** The rendered document *)

(** The elements of the page that the operations and the properties
    look at: the element that carries [data-file-id="ID"] (the file block
    of the list view, the file row of the tree view); the elements with
    the ids [name-display-ID], [name-input-ID], [content-display-ID] and
    [content-textarea-ID]; and the [code] element of the code view with
    the text printed in it. *)
Inductive ElemId : Type :=
| FileBlock (i : Z)
| NameDisplay (i : Z)
| NameInput (i : Z)
| ContentDisplay (i : Z)
| ContentTextarea (i : Z)
| Commands (text : jsstring).

Definition ElemId_eqb (a b : ElemId) : bool :=
  match a, b with
  | FileBlock i, FileBlock j
  | NameDisplay i, NameDisplay j
  | NameInput i, NameInput j
  | ContentDisplay i, ContentDisplay j
  | ContentTextarea i, ContentTextarea j => Z.eqb i j
  | Commands s, Commands t => JS.eqb s t
  | _, _ => false
  end.

(** A page: the elements it holds, whatever put them there. *)
Definition Document := list ElemId.

(** [document.getElementById(...)] is not [null]. *)
Definition getElementById (doc : Document) (e : ElemId) : bool :=
  existsb (ElemId_eqb e) doc.

(** The branch that [createFileContentDisplay] takes for a record.  The
    source tests the flags in this order, [isHTML] first: a record
    flagged [isImage] whose name ends in [.html] takes the HTML branch.
    The flags themselves are independent fields of the record. *)
Inductive MediaType : Type := Html | Image | Video | Audio | Binary | Text.

Definition mediaType (f : FileObj) : MediaType :=
  if isHTML f then Html
  else if isImage f then Image
  else if isVideo f then Video
  else if isAudio f then Audio
  else if isBinary f then Binary
  else Text.

(** The content elements whose tags the template writes in each branch.
    Only the HTML and the plain-text branches write the textarea. *)
Definition contentElements (f : FileObj) : list ElemId :=
  match mediaType f with
  | Html | Text => [ContentDisplay (id f); ContentTextarea (id f)]
  | Image | Video | Audio => [ContentDisplay (id f)]
  | Binary => []
  end.

(** [createFileContentDisplay(file)], as the elements whose tags the
    template writes; [None] when the template throws: the HTML branch
    calls [file.content.replace] and the media branch
    [file.content.substring], which an [ArrayBuffer] does not have.
    The template also interpolates the content, the name and the type of
    the record without escaping them: when one of these holds a markup
    character the parser of the page reads it as markup, which can add
    elements and swallow those of the template.  What the page then
    holds is not represented; see [markupFree]. *)
Definition createFileContentDisplay (f : FileObj) : option (list ElemId) :=
  match mediaType f, content f with
  | (Html | Image | Video | Audio), Buf _ => None
  | _, _ => Some (contentElements f)
  end.

(** [createFileBlock(file, index)]: the block, the two name elements and
    the content elements. *)
Definition createFileBlock (f : FileObj) : option (list ElemId) :=
  option_map
    (fun els =>
       FileBlock (id f) :: NameDisplay (id f) :: NameInput (id f) :: els)
    (createFileContentDisplay f).

(** [renderListView(files)].  Up to 50 files the blocks are joined and
    assigned to the container; a block that throws is replaced by an
    error notice without any of these elements.  Beyond 50 files each
    block is parsed in a detached [div] and [div.firstChild] is moved to
    the container: the markup of a block starts with white space, so the
    first child is that text node and no element of a block reaches the
    page. *)
Definition renderListView (fs : list FileObj) : Document :=
  if 50 <? length fs then []
  else
    flat_map (fun f => match createFileBlock f with
                       | Some els => els
                       | None => []
                       end) fs.

(* ================================================================= *)
(** ** Renaming and editing: [saveFileName], [saveFileContent] *)

(** The message handed to [showToast] by an operation. *)
Inductive Toast : Type :=
| NameElementsNotFound    (* Error: Name elements not found *)
| ContentElementsNotFound (* Error: Content elements not found *)
| FileNotFound            (* Error: File not found *)
| FilenameCannotBeEmpty   (* Error: Filename cannot be empty *)
| InvalidCharacters       (* Error: Invalid characters in filename *)
| RenamedTo (newName : jsstring)
| ContentUpdated.

(** [saveFileName(fileId)], with [inputValue] the text in the name input
    of the record: the value of the element found under the id
    [name-input-ID].  (An element of another kind put under that id has
    no value; this is not represented.) *)
Definition saveFileName (doc : Document) (inputValue : jsstring)
    (m : Manager) (fileId : Z) : Manager * Toast :=
  if negb (getElementById doc (NameDisplay fileId))
     || negb (getElementById doc (NameInput fileId))
  then (m, NameElementsNotFound)
  else
    match findFile (files m) fileId with
    | None => (m, FileNotFound)
    | Some _ =>
        let newName := trim inputValue in
        match newName with
        | [] => (m, FilenameCannotBeEmpty)
        | _ :: _ =>
            if testClass reservedChar newName then (m, InvalidCharacters)
            else
              (setFiles m
                 (mutateFile (files m) fileId
                    (fun file => setRelativePath (setName file newName) newName)),
               RenamedTo newName)
        end
    end.

(** [saveFileContent(fileId)], with [textareaValue] the text in the
    textarea of the record: the value of the element found under the id
    [content-textarea-ID].  The value of a textarea is always a string,
    so the test for [undefined] and [null] never fires (an element of
    another kind put under that id has no value; this is not
    represented); what follows the two assignments only repaints the
    block and the statistics. *)
Definition saveFileContent (doc : Document) (textareaValue : jsstring)
    (m : Manager) (fileId : Z) : Manager * Toast :=
  if negb (getElementById doc (ContentDisplay fileId))
     || negb (getElementById doc (ContentTextarea fileId))
  then (m, ContentElementsNotFound)
  else
    match findFile (files m) fileId with
    | None => (m, FileNotFound)
    | Some _ =>
        let newContent := textareaValue in
        (setFiles m
           (mutateFile (files m) fileId
              (fun file =>
                 setSize (setContent file (Str newContent))
                   (Z.of_nat (length newContent)))),
         ContentUpdated)
    end.

(* ================================================================= *)
(** ** Deleting: [deleteFile], [deleteAllFiles] *)

(** [this.files.findIndex((f) => f.id === fileId)]. *)
Fixpoint findIndex (fs : list FileObj) (fileId : Z) : option nat :=
  match fs with
  | [] => None
  | f :: rest =>
      if Z.eqb (id f) fileId then Some 0
      else option_map S (findIndex rest fileId)
  end.

(** [array.splice(start, 1)]. *)
Definition spliceOut (A : Type) (start : nat) (l : list A) : list A :=
  firstn start l ++ skipn (S start) l.

(** [array.splice(start, 0, item)]; a start past the end is the end. *)
Definition spliceIn (A : Type) (start : nat) (item : A) (l : list A) : list A :=
  firstn start l ++ item :: skipn start l.

(** [deleteFile(fileId)] once the confirmation has been given. *)
Definition deleteFile (m : Manager) (fileId : Z) : Manager * option Toast :=
  match findIndex (files m) fileId with
  | None => (m, Some FileNotFound)
  | Some fileIndex => (setFiles m (spliceOut fileIndex (files m)), None)
  end.


(* ================================================================= *)
(** ** Reordering: [handleDragDrop] *)

(** The two splices of [handleDragDrop]: the dragged record is taken out
    and put back in front of the record that was the drop target.  The
    handler is reached for rendered blocks only, so [draggedIndex] always
    names a record. *)
Definition reorder (fs : list FileObj) (draggedIndex targetIndex : nat)
    : list FileObj :=
  match nth_error fs draggedIndex with
  | None => fs
  | Some draggedFile =>
      let fs1 := spliceOut draggedIndex fs in
      let newTargetIndex :=
        if draggedIndex <? targetIndex then targetIndex - 1 else targetIndex in
      spliceIn newTargetIndex draggedFile fs1
  end.

(* ================================================================= *)
(** ** The directory tree: [buildFileTree] *)

(** A node of the object built by [buildFileTree].  [payload] is the
    [__file] property, present exactly when [__isFile] is [true]; the
    entries are the other own properties, in insertion order.  Property
    names inherited from [Object.prototype] are not represented. *)
#[local] Unset Elimination Schemes.
Inductive TreeNode : Type :=
| Node (payload : option FileObj) (entries : list (jsstring * TreeNode)).
#[local] Set Elimination Schemes.

Definition payload (n : TreeNode) : option FileObj :=
  match n with Node p _ => p end.

Definition entries (n : TreeNode) : list (jsstring * TreeNode) :=
  match n with Node _ es => es end.

(** [node.__isFile]. *)
Definition isFileNode (n : TreeNode) : bool :=
  match payload n with Some _ => true | None => false end.

(** [current[part]]. *)
Fixpoint getEntry (part : jsstring) (es : list (jsstring * TreeNode))
    : option TreeNode :=
  match es with
  | [] => None
  | (key, item) :: rest =>
      if JS.eqb key part then Some item else getEntry part rest
  end.

(** The entries once the slot [part] holds [item]: the slot is updated
    where it is, or added last. *)
Fixpoint setEntry (part : jsstring) (item : TreeNode)
    (es : list (jsstring * TreeNode)) : list (jsstring * TreeNode) :=
  match es with
  | [] => [(part, item)]
  | (key, old) :: rest =>
      if JS.eqb key part then (key, item) :: rest
      else (key, old) :: setEntry part item rest
  end.

(** The walk [parts.forEach((part, index) => ...)] from the node
    [current]: a slot is created only when it is empty, as a leaf for the
    last part and as a directory otherwise, and the walk goes on inside
    the slot whatever it holds.  [getEntry] looks among the own entries
    of the node; the source's [current[part]] also finds the members
    inherited from [Object.prototype], so the walk is the source's for
    segments that are none of [inheritedOrReserved] ([plainSegments]). *)
Fixpoint insertParts (parts : list jsstring) (file : FileObj)
    (current : TreeNode) : TreeNode :=
  match parts with
  | [] => current
  | part :: rest =>
      let slot :=
        match getEntry part (entries current) with
        | Some item => item
        | None =>
            match rest with
            | [] => Node (Some file) []
            | _ :: _ => Node None []
            end
        end in
      Node (payload current)
           (setEntry part (insertParts rest file slot) (entries current))
  end.

(** The path that places a record in the tree. *)
Definition treePath (useRelative : bool) (file : FileObj) : jsstring :=
  if useRelative then relativePath file else name file.

Definition insertFile (useRelative : bool) (tree : TreeNode) (file : FileObj)
    : TreeNode :=
  insertParts (split 47 (treePath useRelative file)) file tree.

(** [buildFileTree(files)] started from a given tree; the source starts
    from the empty object. *)
Definition buildFileTreeFrom (useRelative : bool) (tree : TreeNode)
    (fs : list FileObj) : TreeNode :=
  fold_left (insertFile useRelative) fs tree.

Definition buildFileTree (useRelative : bool) (fs : list FileObj) : TreeNode :=
  buildFileTreeFrom useRelative (Node None []) fs.

(** The node reached from [tree] along the segments of [path]. *)
Fixpoint nodeAt (path : list jsstring) (tree : TreeNode) : option TreeNode :=
  match path with
  | [] => Some tree
  | part :: rest =>
      match getEntry part (entries tree) with
      | Some item => nodeAt rest item
      | None => None
      end
  end.

(** The records whose content [renderTreeNode] renders: the file nodes
    reached through directories, keys that start with two underscores
    left out. *)
Fixpoint renderedLeaves (node : TreeNode) : list FileObj :=
  match node with
  | Node _ es =>
      (fix walk (l : list (jsstring * TreeNode)) : list FileObj :=
         match l with
         | [] => []
         | (key, item) :: rest =>
             (if startsWith (js "__") key then []
              else match item with
                   | Node (Some f) _ => [f]
                   | Node None _ => renderedLeaves item
                   end) ++ walk rest
         end) es
  end.

(** [renderTreeView(files)]: a file row and the content elements for
    each leaf; an exception raised for one leaf leaves the fallback
    notice of [renderFiles], with none of the elements.  The order of
    the rows (the source sorts them) is not represented. *)
Definition renderTreeView (useRelative : bool) (fs : list FileObj) : Document :=
  let leaves := renderedLeaves (buildFileTree useRelative fs) in
  if forallb (fun f => match createFileContentDisplay f with
                       | Some _ => true
                       | None => false
                       end) leaves
  then flat_map (fun f => FileBlock (id f) :: contentElements f) leaves
  else [].

(* ================================================================= *)
(** ** The commands of the code view: [generateCommands] *)

(** [lines.join(sep)]. *)
Fixpoint join (sep : jsstring) (lines : list jsstring) : jsstring :=
  match lines with
  | [] => []
  | [line] => line
  | line :: rest => line ++ sep ++ join sep rest
  end.

(** [path.substring(0, path.lastIndexOf("/"))]: the empty string when
    the path has no separator. *)
Definition directoryOf (path : jsstring) : jsstring :=
  match lastIndexOf path 47 with
  | Some p => firstn p path
  | None => []
  end.

(** The line [mkdir -p "dir"]. *)
Definition mkdirLine (dir : jsstring) : jsstring :=
  js "mkdir -p " ++ [34%N] ++ dir ++ [34%N].

(** The line [touch "path"]. *)
Definition touchLine (path : jsstring) : jsstring :=
  js "touch " ++ [34%N] ++ path ++ [34%N].

(** One turn of the first loop of [generateCommands], on the set
    [directories] and the array [commands]. *)
Definition mkdirStep (useRelative : bool)
    (state : list jsstring * list jsstring) (file : FileObj)
    : list jsstring * list jsstring :=
  let dir := directoryOf (treePath useRelative file) in
  match dir with
  | [] => state
  | _ :: _ =>
      if member dir (fst state) then state
      else (fst state ++ [dir], snd state ++ [mkdirLine dir])
  end.

(** The array [commands] of [generateCommands(files)] before it is
    joined. *)
Definition commandLines (useRelative : bool) (fs : list FileObj)
    : list jsstring :=
  fold_left (fun commands file =>
               commands ++ [touchLine (treePath useRelative file)])
    fs (snd (fold_left (mkdirStep useRelative) fs ([], []))).

(** [generateCommands(files)]. *)
Definition generateCommands (useRelative : bool) (fs : list FileObj)
    : jsstring :=
  join [10%N] (commandLines useRelative fs).

(** [renderCodeView(files)]: the commands, printed in one [code]
    element. *)
Definition renderCodeView (useRelative : bool) (fs : list FileObj)
    : Document :=
  [Commands (generateCommands useRelative fs)].

(* ================================================================= *)
(** ** Search and the filter of [renderFiles] *)

(** [array.forEach((position, index) => this.searchMatches.push(...))]. *)
Definition toMatches (fid : Z) (field : MatchField) (positions : list nat)
    : list SearchMatch :=
  map (fun ip => mkSearchMatch fid field (snd ip) (fst ip))
      (combine (seq 0 (length positions)) positions).

(** The loop of [getMatchPositions]; [fuel] bounds the number of turns. *)
Fixpoint matchLoop (fuel : nat) (lowerText term : jsstring)
    (index : option nat) : list nat :=
  match fuel with
  | 0 => []
  | S fuel' =>
      match index with
      | None => []
      | Some i =>
          i :: matchLoop fuel' lowerText term (indexOf lowerText term (i + 1))
      end
  end.

Section Search.

Variable toLowerCase : jsstring -> jsstring.

(** [getMatchPositions(text, searchTerm)]. *)
Definition getMatchPositions (text term : jsstring) : list nat :=
  match text, term with
  | [], _ | _, [] => []
  | _ :: _, _ :: _ =>
      let lowerText := toLowerCase text in
      matchLoop (S (length lowerText)) lowerText term
                (indexOf lowerText term 0)
  end.

(** What one turn of [this.files.forEach] in [findAllMatches] pushes. *)
Definition fileMatches (term : jsstring) (file : FileObj)
    : list SearchMatch :=
  toMatches (id file) InName (getMatchPositions (name file) term)
  ++ match content file with
     | Str text =>
         if negb (isBinary file)
         then toMatches (id file) InContent (getMatchPositions text term)
         else []
     | Buf _ => []
     end.

(** [findAllMatches()]. *)
Definition findAllMatches (m : Manager) : Manager :=
  setSearchMatches m
    (fold_left (fun found file => found ++ fileMatches (searchTerm m) file)
               (files m) []).

(** The debounced body of [handleSearch], for the text [value] of the
    search box. *)
Definition handleSearch (m : Manager) (value : jsstring) : Manager :=
  let searchValue := toLowerCase value in
  let m1 := mkManager (files m) (isProcessing m) (currentView m)
              (useRelativePaths m) searchValue [] 0 in
  match searchValue with
  | [] => m1
  | _ :: _ => findAllMatches m1
  end.

(** The predicate of [this.files.filter] in [renderFiles]. *)
Definition matchesFilter (term : jsstring) (file : FileObj) : bool :=
  includes (toLowerCase (name file)) term
  || match content file with
     | Str text => includes (toLowerCase text) term
     | Buf _ => false
     end.

(** [filteredFiles] of [renderFiles]. *)
Definition filteredFiles (m : Manager) : list FileObj :=
  match searchTerm m with
  | [] => files m
  | _ :: _ => filter (matchesFilter (searchTerm m)) (files m)
  end.

(** [renderFiles()]: the elements that the templates write in the
    container, for the records that pass the filter. *)
Definition renderFiles (m : Manager) : Document :=
  match files m with
  | [] => []
  | _ :: _ =>
      match currentView m with
      | ListView => renderListView (filteredFiles m)
      | TreeView => renderTreeView (useRelativePaths m) (filteredFiles m)
      | CodeView => renderCodeView (useRelativePaths m) (filteredFiles m)
      end
  end.

(** [handleDragDrop(e)] for the blocks with the given [data-index].
    The handler is reached from a drop on a file block; the list view
    writes one block for each displayed record, with its place among
    them as [data-index].  The handler returns at once when a block is
    missing or when the target is the dragged block.  Every index below
    the number of displayed records is taken as the index of a block:
    where the page has no block for it (beyond 50 displayed records, or
    for a record whose template throws) the source has no drop to
    handle. *)
Definition handleDragDrop (m : Manager) (draggedIndex targetIndex : nat)
    : Manager :=
  let blocks :=
    match currentView m with
    | ListView => length (filteredFiles m)
    | _ => 0
    end in
  if (targetIndex <? blocks) && (draggedIndex <? blocks)
     && negb (targetIndex =? draggedIndex)
  then setFiles m (reorder (files m) draggedIndex targetIndex)
  else m.

End Search.

(* ================================================================= *)
(** ** Invariants and notions used by the properties *)

(** Two records that the duplicate check of the ingestion would not tell
    apart: same name, same size, modification times less than a second
    apart. *)
Definition sameRecord (a b : FileObj) : bool :=
  JS.eqb (name a) (name b)
  && Z.eqb (size a) (size b)
  && Z.ltb (Z.abs (lastModified a - lastModified b)) 1000.










(** Records whose content is decoded text shown in an editable area:
    plain text and HTML source. *)
Definition isTextual (t : MediaType) : bool :=
  match t with
  | Text | Html => true
  | Image | Video | Audio | Binary => false
  end.


(** The start positions of the occurrences of [term] in [text], in
    increasing order, overlapping occurrences included. *)
Definition occurrences (term text : jsstring) : list nat :=
  filter (fun p => startsWith term (skipn p text)) (seq 0 (length text)).

(** [toLowerCase] on strings of ASCII characters, for the examples. *)
Definition asciiLowerCase (s : jsstring) : jsstring :=
  map (fun c => if ((65 <=? c) && (c <=? 90))%N then (c + 32)%N else c) s.

(** Own property names of a tree node that the model represents: not a
    member inherited from [Object.prototype] and not one of the two
    bookkeeping properties. *)
Definition inheritedOrReserved : list jsstring :=
  map js
    [ "constructor"; "__proto__"; "hasOwnProperty"; "isPrototypeOf";
      "propertyIsEnumerable"; "toLocaleString"; "toString"; "valueOf";
      "__defineGetter__"; "__defineSetter__"; "__lookupGetter__";
      "__lookupSetter__"; "__file"; "__isFile" ]%string.

Definition plainSegments (useRelative : bool) (fs : list FileObj) : Prop :=
  forall f part,
    In f fs -> In part (split 47 (treePath useRelative f)) ->
    member part inheritedOrReserved = false.

(** A record for the examples: a file of the given id, name, path,
    declared type and content, read at modification time [0]. *)
Definition exampleFile (i : Z) (n p t : string) (c : Content)
    (image binary html : bool) : FileObj :=
  {| id := i; name := js n; size := 5; type := js t; lastModified := 0;
     relativePath := js p; content := c;
     isImage := image; isVideo := false; isAudio := false;
     isBinary := binary; isHTML := html |}.

(** The manager as the constructor leaves it, holding the given
    records: list view, relative paths on, no search. *)
Definition exampleManager (fs : list FileObj) : Manager :=
  setFiles initialManager fs.

(* ================================================================= *)
(** ** Example stores and the readings put to the test *)

(** Two text files of the same size, read at the same time, under
    different names. *)
Definition twoNotes : Manager :=
  exampleManager
    [ exampleFile 1 "a.txt" "a.txt" "text/plain" (Str (js "hello"))
        false false false;
      exampleFile 2 "b.txt" "b.txt" "text/plain" (Str (js "world"))
        false false false ].

(** Three text files in the list view, no search active. *)
Definition threeNotes : Manager :=
  exampleManager
    [ exampleFile 1 "a.txt" "a.txt" "text/plain" (Str (js "alpha"))
        false false false;
      exampleFile 2 "b.txt" "b.txt" "text/plain" (Str (js "bravo"))
        false false false;
      exampleFile 3 "c.txt" "c.txt" "text/plain" (Str (js "comet"))
        false false false ].

(** The reading of C8 that the code refutes: whatever two blocks are
    chosen for the first drag, some second drag restores the store. *)
Definition every_move_has_inverse (toLowerCase : jsstring -> jsstring) : Prop :=
  forall (m : Manager) (i j : nat),
    currentView m = ListView -> searchTerm m = [] ->
    i < length (files m) -> j < length (files m) -> i <> j ->
    exists i' j',
      handleDragDrop toLowerCase (handleDragDrop toLowerCase m i j) i' j' = m.

(** The path that C2 expects after a rename, following the words of the
    specification: the directory segments of the old path are kept and
    its last segment is replaced by the new name. *)
Definition replaceLeaf (path newName : jsstring) : jsstring :=
  match lastIndexOf path 47 with
  | Some p => firstn (S p) path ++ newName
  | None => newName
  end.

(** A text file dropped inside the folder [docs]. *)
Definition nestedNote : Manager :=
  exampleManager
    [ exampleFile 1 "a.txt" "docs/a.txt" "text/plain" (Str (js "hello"))
        false false false ].

Definition renamedNote : Manager :=
  fst (saveFileName (renderFiles asciiLowerCase nestedNote) (js " b.txt ")
         nestedNote 1).

(** The reading of C2 that the code refutes: after a successful rename
    the relative path is the old one with its last segment replaced. *)
Definition rename_keeps_directory_prefix : Prop :=
  forall (doc : Document) (inputValue : jsstring) (m m' : Manager)
         (fileId : Z) (newName : jsstring) (f f' : FileObj),
    saveFileName doc inputValue m fileId = (m', RenamedTo newName) ->
    findFile (files m) fileId = Some f ->
    findFile (files m') fileId = Some f' ->
    name f' = newName
    /\ relativePath f' = replaceLeaf (relativePath f) newName.

(** The name typed for the rename of C7: [a], a tab, [b.txt]. *)
Definition nameWithTab : jsstring := js "a" ++ [9%N] ++ js "b.txt".

(** A photograph and a text file, in the list view. *)
Definition photo : FileObj :=
  exampleFile 7 "cat.png" "cat.png" "image/png"
    (Str (js "data:image/png;base64,AAAA")) true false false.

Definition note : FileObj :=
  exampleFile 8 "todo.txt" "todo.txt" "text/plain" (Str (js "hello"))
    false false false.

Definition photoAndNote : Manager := exampleManager [photo; note].

(** One ideograph, U+4E2D: one UTF-16 code unit, three bytes in UTF-8
    (two in UTF-16). *)
Definition ideograph : jsstring := [20013%N].

(** A file dropped in the folder [a], and a file named [a]. *)
Definition inFolder : FileObj :=
  exampleFile 1 "b" "a/b" "text/plain" (Str (js "hello")) false false false.

Definition namedLikeFolder : FileObj :=
  exampleFile 2 "a" "a" "text/plain" (Str (js "world")) false false false.

(** The reading of C3 that the code refutes: a record whose path ends at
    a segment takes the slot from an earlier record that had made the
    segment a directory. *)
Definition last_write_wins : Prop :=
  forall (useRelative : bool) (earlier later : FileObj)
         (segments more : list jsstring) (n : TreeNode),
    split 47 (treePath useRelative later) = segments ->
    split 47 (treePath useRelative earlier) = segments ++ more ->
    more <> [] ->
    nodeAt segments (buildFileTree useRelative [earlier; later]) = Some n ->
    payload n = Some later.

(** The text of a record that the search scans besides its name: its
    content when that is a string and the record is not flagged binary,
    whatever the record is otherwise (the data URL of an image
    included). *)
Definition scannedText (f : FileObj) : option jsstring :=
  match content f with
  | Str text => if isBinary f then None else Some text
  | Buf _ => None
  end.

(** Where a non-empty [term] occurs in the lower-cased [text]. *)
Definition positionsIn (toLowerCase : jsstring -> jsstring)
    (term text : jsstring) : list nat :=
  match text with
  | [] => []
  | _ :: _ => occurrences term (toLowerCase text)
  end.

(** The photograph and the note, searched for [PNG]. *)
Definition searchedForPng : Manager :=
  handleSearch asciiLowerCase photoAndNote (js "PNG").

(** The reading of C4 that the code refutes: only records of textual
    kind have matches in their content. *)
Definition content_matches_only_in_textual
    (toLowerCase : jsstring -> jsstring) : Prop :=
  forall (m : Manager) (f : FileObj) (sm : SearchMatch),
    searchTerm m <> [] -> NoDup (map id (files m)) -> In f (files m) ->
    In sm (searchMatches (findAllMatches toLowerCase m)) ->
    fileId sm = id f -> matchType sm = InContent ->
    isTextual (mediaType f) = true.









(* ================================================================= *)
(** ** Search navigation: [navigateSearch], [updateSearchNav], [clearSearch] *)

Definition setCurrentMatchIndex (m : Manager) (i : nat) : Manager :=
  mkManager (files m) (isProcessing m) (currentView m) (useRelativePaths m)
    (searchTerm m) (searchMatches m) i.

(** [navigateSearch(direction)]: nothing without matches; otherwise one
    step forward for ["next"] and one step back for any other direction,
    modulo the number of matches.  The source computes
    [(index - 1 + length) % length]; as the length is at least one, the
    same number is [(index + length - 1) % length] without passing below
    zero. *)
Definition navigateSearch (m : Manager) (direction : jsstring) : Manager :=
  match searchMatches m with
  | [] => m
  | _ :: _ =>
      let total := length (searchMatches m) in
      if JS.eqb direction (js "next")
      then setCurrentMatchIndex m ((currentMatchIndex m + 1) mod total)
      else setCurrentMatchIndex m ((currentMatchIndex m + total - 1) mod total)
  end.

(** The two numbers that [updateSearchNav] writes in the counter,
    [current/total]. *)
Definition updateSearchNav (m : Manager) : nat * nat :=
  let total := length (searchMatches m) in
  ((if 0 <? total then currentMatchIndex m + 1 else 0), total).

(** [clearSearch()]. *)
Definition clearSearch (m : Manager) : Manager :=
  mkManager (files m) (isProcessing m) (currentView m) (useRelativePaths m)
    [] [] 0.

(* ================================================================= *)
(** ** Selection: [selectAllFiles], [deleteSelectedFiles] *)

(** [this.selectedFiles], a [Set] of ids: the ids in insertion order,
    each once. *)
Definition Selection := list Z.

(** [set.add(id)]. *)
Definition selectionAdd (sel : Selection) (i : Z) : Selection :=
  if existsb (Z.eqb i) sel then sel else sel ++ [i].

(** [set.delete(id)]. *)
Definition selectionDelete (sel : Selection) (i : Z) : Selection :=
  filter (fun j => negb (Z.eqb j i)) sel.

(** [selectAllFiles()]: nothing for an empty store; otherwise the
    selection is cleared and refilled with the id of every record. *)
Definition selectAllFiles (fs : list FileObj) (sel : Selection) : Selection :=
  match fs with
  | [] => sel
  | _ :: _ => fold_left (fun s file => selectionAdd s (id file)) fs []
  end.

(** [deleteSelectedFiles()] once the confirmation has been given:
    nothing for an empty selection; otherwise the records whose id is
    selected are filtered out and the selection is cleared. *)
Definition deleteSelectedFiles (fs : list FileObj) (sel : Selection)
    : list FileObj * Selection :=
  match sel with
  | [] => (fs, sel)
  | _ :: _ =>
      (filter (fun file => negb (existsb (Z.eqb (id file)) sel)) fs, [])
  end.

(* ================================================================= *)
(** ** Text produced for the page and the clipboard *)

(** [escapeHtml(text)]: each of the five characters of the class
    is replaced by its entity. *)
Definition escapeChar (c : N) : jsstring :=
  if (c =? 38)%N then js "&amp;"
  else if (c =? 60)%N then js "&lt;"
  else if (c =? 62)%N then js "&gt;"
  else if (c =? 34)%N then js "&quot;"
  else if (c =? 39)%N then js "&#039;"
  else [c].

Definition escapeHtml (text : jsstring) : jsstring :=
  flat_map escapeChar text.

(** The property names that every object literal inherits from
    [Object.prototype]; a lookup of one of them in a table written as an
    object literal does not give [undefined]. *)
Definition inheritedNames : list jsstring :=
  map js
    [ "constructor"; "__proto__"; "hasOwnProperty"; "isPrototypeOf";
      "propertyIsEnumerable"; "toLocaleString"; "toString"; "valueOf";
      "__defineGetter__"; "__defineSetter__"; "__lookupGetter__";
      "__lookupSetter__" ]%string.

(** [getToastDuration(type, message)], in milliseconds.  The table
    [baseDurations] is looked up by its own keys, which is what the
    source does for every type that is not one of [inheritedNames]. *)
Definition baseDuration (type : jsstring) : Z :=
  if JS.eqb type (js "error") then 7000
  else if JS.eqb type (js "warning") then 5000
  else if JS.eqb type (js "success") then 3000
  else if JS.eqb type (js "info") then 3000
  else 3000.

(** [(message.match(/\n/g) || []).length]. *)
Definition lineCount (message : jsstring) : Z :=
  Z.of_nat (length (filter (N.eqb 10) message)).

Definition getToastDuration (type message : jsstring) : Z :=
  let messageLength := Z.of_nat (length message) in
  let d0 := baseDuration type in
  let d1 := if Z.ltb 100 messageLength
            then (d0 + Z.min 2000 (messageLength * 20))%Z else d0 in
  let d2 := if Z.ltb 0 (lineCount message)
            then (d1 + lineCount message * 1000)%Z else d1 in
  Z.min d2 15000.

(** The list kept by [trackError] under [fileManagerErrors]: the new
    entry is put in front ([unshift]) and the list is cut after ten
    entries ([splice(10)]). *)
Definition trackError (A : Type) (errors : list A) (errorData : A) : list A :=
  firstn 10 (errorData :: errors).

(* ================================================================= *)
(** ** Dropped directories: [collectEntryFiles] *)

(** A [FileSystemEntry] of a drop, with what reading it gives: a file
    entry yields its [File] or fails; a directory entry yields its
    children, all batches of its reader put end to end; [OtherEntry] is
    an entry that is neither. *)
#[local] Unset Elimination Schemes.
Inductive Entry : Type :=
| FileEntry (entryName : jsstring) (file : option RawFile)
| DirectoryEntry (entryName : jsstring) (children : list Entry)
| OtherEntry.
#[local] Set Elimination Schemes.

(** [file.relativePath = path + entry.name]. *)
Definition setRawRelativePath (file : RawFile) (path : jsstring) : RawFile :=
  mkRawFile (rawName file) (rawSize file) (rawType file)
    (rawLastModified file) (Some path).

(** The files handed to the callback of [collectEntryFiles(entry,
    callback, path)], with [readAllEntriesForCollection] for the
    directories. *)
Fixpoint collectEntryFiles (entry : Entry) (path : jsstring) : list RawFile :=
  match entry with
  | FileEntry entryName (Some file) =>
      [setRawRelativePath file (path ++ entryName)]
  | FileEntry _ None => []
  | DirectoryEntry entryName children =>
      (fix readAll (l : list Entry) : list RawFile :=
         match l with
         | [] => []
         | child :: rest =>
             collectEntryFiles child (path ++ entryName ++ [47%N])
             ++ readAll rest
         end) children
  | OtherEntry => []
  end.

(** [segments] is an initial part of [path]. *)
Fixpoint isPrefix (segments path : list jsstring) : bool :=
  match segments, path with
  | [], _ => true
  | _ :: _, [] => false
  | s :: segments', p :: path' => JS.eqb s p && isPrefix segments' path'
  end.

(** The records that the files of [accepted] add to the store, one for
    each file whose read succeeds. *)
Definition ingestedRecords
    (readAsDataURL : RawFile -> option jsstring)
    (readAsArrayBuffer : RawFile -> option (list N))
    (readAsText : RawFile -> option jsstring) (newId : RawFile -> Z)
    (accepted : list RawFile) : list FileObj :=
  flat_map
    (fun file =>
       match readFile readAsDataURL readAsArrayBuffer readAsText file with
       | Some result => [makeFileObj newId file result]
       | None => []
       end) accepted.

(* ================================================================= *)
(** ** Notions and examples for the further properties *)

(** The cursor of the search names one of the matches, when there are
    any. *)
Definition cursorInRange (m : Manager) : Prop :=
  searchMatches m = [] \/ currentMatchIndex m < length (searchMatches m).

(** The names on the way from a dropped entry to each file found under
    it, the entry's own name first: one list for each file whose read
    succeeds, in reading order. *)
Fixpoint entryPaths (entry : Entry) : list (list jsstring) :=
  match entry with
  | FileEntry entryName (Some _) => [[entryName]]
  | FileEntry _ None => []
  | DirectoryEntry entryName children =>
      map (cons entryName)
        ((fix all (l : list Entry) : list (list jsstring) :=
            match l with
            | [] => []
            | child :: rest => entryPaths child ++ all rest
            end) children)
  | OtherEntry => []
  end.

(** No name of the entry or of an entry under it holds the separator. *)
Fixpoint namesWithout (sep : N) (entry : Entry) : Prop :=
  match entry with
  | FileEntry entryName _ => Forall (fun c => c <> sep) entryName
  | DirectoryEntry entryName children =>
      Forall (fun c => c <> sep) entryName
      /\ (fix all (l : list Entry) : Prop :=
            match l with
            | [] => True
            | child :: rest => namesWithout sep child /\ all rest
            end) children
  | OtherEntry => True
  end.

(** A batch of one text file, and a host whose text reads succeed. *)
Definition oneTextFile : list RawFile :=
  [mkRawFile (js "c.txt") 3 (js "text/plain") 0 None].

Definition ingestText (m : Manager) (batch : list RawFile) : Manager :=
  handleFileSelect asciiLowerCase (fun _ => None) (fun _ => None)
    (fun _ => Some (js "xyz")) (fun _ => 3%Z) m batch.

Definition ingestedText : FileObj :=
  makeFileObj (fun _ => 3%Z)
    (mkRawFile (js "c.txt") 3 (js "text/plain") 0 None) (Str (js "xyz")).

(** A file declared as PDF under a name that ends in [.html]. *)
Definition pdfNamedHtml : RawFile :=
  mkRawFile (js "report.html") 2 (js "application/pdf") 0 None.

(* ================================================================= *)
(** * Properties *)

(** ** Strings *)

Lemma eqb_eq (a b : jsstring) : JS.eqb a b = true <-> a = b.
Proof.
  unfold JS.eqb. destruct (jsstring_eq_dec a b); split; congruence.
Qed.

Lemma eqb_neq (a b : jsstring) : JS.eqb a b = false <-> a <> b.
Proof.
  unfold JS.eqb. destruct (jsstring_eq_dec a b); split; congruence.
Qed.

Lemma eqb_refl (a : jsstring) : JS.eqb a a = true.
Proof. now apply eqb_eq. Qed.


Lemma startsWith_prefix (term text : jsstring) :
  startsWith term text = true <-> exists rest, text = term ++ rest.
Proof.
  revert text. induction term as [|c term IH]; intros text; simpl.
  - split; [intros _; now exists text | reflexivity].
  - destruct text as [|d text].
    + split; [discriminate | intros [rest H]; discriminate].
    + rewrite andb_true_iff, N.eqb_eq, IH. split.
      * intros [-> [rest ->]]. now exists rest.
      * intros [rest H]. injection H as -> ->. split; [reflexivity|now exists rest].
Qed.



Lemma skipn_cons_nth (A : Type) (l : list A) (n : nat) :
  n < length l -> exists d, skipn n l = d :: skipn (S n) l.
Proof.
  revert n. induction l as [|a l IH]; intros n H; simpl in H; [lia|].
  destruct n as [|n]; [now exists a|].
  destruct (IH n) as [d Hd]; [lia|]. exists d. exact Hd.
Qed.

Lemma indexOf_step (text term : jsstring) (from : nat) :
  from < length text ->
  indexOf text term from =
    if startsWith term (skipn from text) then Some from
    else indexOf text term (S from).
Proof.
  intros H. unfold indexOf.
  destruct (skipn_cons_nth text H) as [d ->].
  rewrite !Nat.min_l by lia. reflexivity.
Qed.

Lemma indexOf_past_end (text term : jsstring) (from : nat) :
  term <> [] -> length text <= from -> indexOf text term from = None.
Proof.
  intros Hterm H. unfold indexOf. rewrite skipn_all2 by exact H.
  destruct term; [congruence|reflexivity].
Qed.

(** The loop of [getMatchPositions] has fuel enough to report every
    occurrence from [from] on. *)
Lemma matchLoop_occurrences (text term : jsstring) :
  term <> [] ->
  forall n from fuel,
    length text - from = n -> n < fuel ->
    matchLoop fuel text term (indexOf text term from) =
    filter (fun p => startsWith term (skipn p text)) (seq from n).
Proof.
  intros Hterm. induction n as [|n IH]; intros from fuel Hn Hfuel.
  - rewrite indexOf_past_end by (trivial; lia).
    destruct fuel; reflexivity.
  - rewrite indexOf_step by lia. simpl.
    destruct (startsWith term (skipn from text)) eqn:E.
    + destruct fuel as [|fuel]; [lia|]. simpl.
      rewrite Nat.add_1_r. f_equal. apply IH; lia.
    + apply IH; lia.
Qed.

Lemma getMatchPositions_occurrences
    (toLowerCase : jsstring -> jsstring) (text term : jsstring) :
  term <> [] -> text <> [] ->
  getMatchPositions toLowerCase text term =
  occurrences term (toLowerCase text).
Proof.
  intros Hterm Htext. unfold getMatchPositions, occurrences.
  destruct text as [|c text]; [congruence|].
  destruct term as [|d term]; [congruence|].
  apply matchLoop_occurrences; [discriminate|lia|lia].
Qed.

(* ================================================================= *)
(** ** Duplicate detection at ingestion *)

Lemma sameFile_true (f : FileObj) (file : RawFile) :
  sameFile f file = true <->
  name f = rawName file /\ size f = rawSize file
  /\ (Z.abs (lastModified f - rawLastModified file) < 1000)%Z.
Proof.
  unfold sameFile.
  rewrite !andb_true_iff, eqb_eq, Z.eqb_eq, Z.ltb_lt. tauto.
Qed.

Lemma sameFile_false (f : FileObj) (file : RawFile) :
  sameFile f file = false <->
  name f <> rawName file \/ size f <> rawSize file
  \/ (1000 <= Z.abs (lastModified f - rawLastModified file))%Z.
Proof.
  unfold sameFile.
  rewrite !andb_false_iff, eqb_neq, Z.eqb_neq, Z.ltb_ge. tauto.
Qed.

Lemma isDuplicate_false (fs : list FileObj) (file : RawFile) :
  isDuplicate fs file = false <->
  forall f, In f fs -> sameFile f file = false.
Proof.
  unfold isDuplicate. induction fs as [|g fs IH]; simpl.
  - split; [intros _ f []|reflexivity].
  - rewrite orb_false_iff, IH. split.
    + intros [Hg Hfs] f [<-|Hin]; auto.
    + intros H. split; [apply H; now left|intros f Hin; apply H; now right].
Qed.

Lemma validateFile_Valid_not_duplicate
    (toLowerCase : jsstring -> jsstring) (fs : list FileObj) (file : RawFile) :
  validateFile toLowerCase fs file = Valid -> isDuplicate fs file = false.
Proof.
  unfold validateFile.
  destruct (Z.eqb (rawSize file) 0); [discriminate|].
  destruct (Z.gtb (rawSize file) maxFileSize); [discriminate|].
  destruct (negb (member (rawType file) allowedTypes)
            && negb (isTextFile toLowerCase (rawName file))); [discriminate|].
  destruct (isDuplicate fs file); [discriminate|reflexivity].
Qed.

(** C6. At ingestion, a file whose name and size equal those of a record
    of the store and whose modification time is less than 1000 ms away
    from that record's makes the duplicate check fire and is not
    accepted (it is reported as already existing whenever the size and
    type checks that come first let it through); a file that differs
    from every record in name, in size, or by at least 1000 ms in
    modification time passes the duplicate check. *)
Theorem duplicate_detection
    (toLowerCase : jsstring -> jsstring) (fs : list FileObj) (file : RawFile) :
  ((exists f, In f fs /\ name f = rawName file /\ size f = rawSize file
              /\ (Z.abs (lastModified f - rawLastModified file) < 1000)%Z) ->
   isDuplicate fs file = true
   /\ validateFile toLowerCase fs file <> Valid
   /\ (rawSize file <> 0%Z -> (rawSize file <= maxFileSize)%Z ->
       member (rawType file) allowedTypes = true
       \/ isTextFile toLowerCase (rawName file) = true ->
       validateFile toLowerCase fs file = FileAlreadyExists))
  /\
  ((forall f, In f fs ->
      name f <> rawName file \/ size f <> rawSize file
      \/ (1000 <= Z.abs (lastModified f - rawLastModified file))%Z) ->
   isDuplicate fs file = false
   /\ validateFile toLowerCase fs file <> FileAlreadyExists).
Proof.
  split.
  - intros (f & Hin & Hsame).
    assert (Hdup : isDuplicate fs file = true).
    { unfold isDuplicate. apply existsb_exists. exists f. split; [exact Hin|].
      apply sameFile_true. exact Hsame. }
    split; [exact Hdup|]. split.
    + intros Hvalid. apply validateFile_Valid_not_duplicate in Hvalid.
      congruence.
    + intros Hsize Hmax Htype. unfold validateFile.
      apply Z.eqb_neq in Hsize. rewrite Hsize.
      assert (Hgt : Z.gtb (rawSize file) maxFileSize = false).
      { rewrite Z.gtb_ltb. apply Z.ltb_ge. exact Hmax. }
      rewrite Hgt, Hdup.
      destruct Htype as [-> | ->]; simpl; [reflexivity|].
      now rewrite andb_false_r.
  - intros Hdiff.
    assert (Hdup : isDuplicate fs file = false).
    { apply isDuplicate_false. intros f Hin. apply sameFile_false. auto. }
    split; [exact Hdup|].
    unfold validateFile. rewrite Hdup.
    destruct (Z.eqb (rawSize file) 0); [discriminate|].
    destruct (Z.gtb (rawSize file) maxFileSize); [discriminate|].
    destruct (negb (member (rawType file) allowedTypes)
              && negb (isTextFile toLowerCase (rawName file))); [discriminate|].
    destruct (testClass reservedOrControlChar (rawName file)); discriminate.
Qed.

(** A second copy of [notes.txt] modified 999 ms later is reported as
    already existing; modified 1000 ms later it passes the check. *)
Lemma duplicate_detection_witness :
  let stored := exampleFile 1 "notes.txt" "notes.txt" "text/plain"
                  (Str (js "hello")) false false false in
  let copy t := mkRawFile (js "notes.txt") 5 (js "text/plain") t None in
  validateFile asciiLowerCase [stored] (copy 999%Z) = FileAlreadyExists
  /\ isDuplicate [stored] (copy 1000%Z) = false.
Proof.
  intros stored copy. split.
  - destruct (duplicate_detection asciiLowerCase [stored] (copy 999%Z))
      as [Hdup _].
    destruct Hdup as (_ & _ & Hverdict).
    + exists stored. split; [now left|]. vm_compute. repeat split; reflexivity.
    + apply Hverdict; [discriminate|discriminate|left; reflexivity].
  - destruct (duplicate_detection asciiLowerCase [stored] (copy 1000%Z))
      as [_ Hfresh].
    apply Hfresh. intros f [<-|[]]. right. right. vm_compute. discriminate.
Defined.

(* ================================================================= *)
(** ** Records that cannot be told apart *)

Section PairwiseFacts.

Variable A : Type.
Variable R : A -> A -> Prop.
Hypothesis R_sym : forall a b, R a b -> R b a.





End PairwiseFacts.


Lemma firstn_skipn_nth (A : Type) (l : list A) (n : nat) (x : A) :
  nth_error l n = Some x -> l = firstn n l ++ x :: skipn (S n) l.
Proof.
  revert n. induction l as [|a l IH]; intros [|n] H; simpl in *;
    try discriminate.
  - now injection H as ->.
  - f_equal. now apply IH.
Qed.





Lemma files_setFiles (m : Manager) (fs : list FileObj) :
  files (setFiles m fs) = fs.
Proof. reflexivity. Qed.





(* ================================================================= *)
(** ** Reordering by drag and drop *)

Lemma nth_error_middle (A : Type) (l r : list A) (x : A) :
  nth_error (l ++ x :: r) (length l) = Some x.
Proof. induction l as [|a l IH]; simpl; [reflexivity|exact IH]. Qed.

Lemma spliceOut_middle (A : Type) (l r : list A) (x : A) :
  spliceOut (length l) (l ++ x :: r) = l ++ r.
Proof.
  unfold spliceOut. induction l as [|a l IH]; simpl; [reflexivity|].
  f_equal. exact IH.
Qed.

Lemma spliceIn_middle (A : Type) (l r : list A) (x : A) :
  spliceIn (length l) x (l ++ r) = l ++ x :: r.
Proof.
  unfold spliceIn. induction l as [|a l IH]; simpl.
  - now destruct r.
  - f_equal. exact IH.
Qed.

(** A record dragged onto a later one lands just in front of it. *)
Lemma reorder_forward (a b c : list FileObj) (x y : FileObj) :
  reorder (a ++ x :: b ++ y :: c) (length a) (length a + S (length b))
  = a ++ b ++ x :: y :: c.
Proof.
  unfold reorder. rewrite nth_error_middle, spliceOut_middle.
  replace (length a <? length a + S (length b)) with true
    by (symmetry; apply Nat.ltb_lt; lia).
  replace (length a + S (length b) - 1) with (length (a ++ b))
    by (rewrite length_app; lia).
  rewrite (app_assoc a b (y :: c)), spliceIn_middle.
  now rewrite <- app_assoc.
Qed.

(** A record dragged onto an earlier one lands just in front of it. *)
Lemma reorder_backward (a b c : list FileObj) (x y : FileObj) :
  reorder (a ++ y :: b ++ x :: c) (length a + S (length b)) (length a)
  = a ++ x :: y :: b ++ c.
Proof.
  unfold reorder.
  replace (a ++ y :: b ++ x :: c) with ((a ++ y :: b) ++ x :: c)
    by (now rewrite <- app_assoc).
  replace (length a + S (length b)) with (length (a ++ y :: b))
    by (rewrite length_app; simpl; lia).
  rewrite nth_error_middle, spliceOut_middle.
  replace (length (a ++ y :: b) <? length a) with false
    by (symmetry; apply Nat.ltb_ge; rewrite length_app; lia).
  rewrite <- app_assoc. simpl. now rewrite spliceIn_middle.
Qed.

Lemma two_positions (A : Type) (l : list A) (i j : nat) :
  i < j -> j < length l ->
  exists a x b y c,
    l = a ++ x :: b ++ y :: c /\ length a = i /\ length a + S (length b) = j.
Proof.
  intros Hij Hj.
  destruct (nth_error l i) as [x|] eqn:Ex;
    [|apply nth_error_None in Ex; lia].
  pose proof (firstn_skipn_nth l i Ex) as Hl.
  set (r := skipn (S i) l) in *.
  assert (Hlen : length l = i + S (length r)).
  { rewrite Hl at 1. rewrite length_app, length_firstn. simpl. lia. }
  destruct (nth_error r (j - S i)) as [y|] eqn:Ey;
    [|apply nth_error_None in Ey; lia].
  pose proof (firstn_skipn_nth r (j - S i) Ey) as Hr.
  exists (firstn i l), x, (firstn (j - S i) r), y, (skipn (S (j - S i)) r).
  split; [now rewrite <- Hr|].
  rewrite !length_firstn. lia.
Qed.

Lemma setFiles_setFiles (m : Manager) (fs fs' : list FileObj) :
  setFiles (setFiles m fs) fs' = setFiles m fs'.
Proof. reflexivity. Qed.

Lemma setFiles_same (m : Manager) : setFiles m (files m) = m.
Proof. now destruct m. Qed.

Lemma handleDragDrop_move
    (toLowerCase : jsstring -> jsstring) (m : Manager) (i j : nat) :
  currentView m = ListView -> searchTerm m = [] ->
  i < length (files m) -> j < length (files m) -> i <> j ->
  handleDragDrop toLowerCase m i j = setFiles m (reorder (files m) i j).
Proof.
  intros Hview Hterm Hi Hj Hij. unfold handleDragDrop, filteredFiles.
  rewrite Hview, Hterm.
  apply Nat.ltb_lt in Hi, Hj. rewrite Hi, Hj.
  replace (j =? i) with false by (symmetry; apply Nat.eqb_neq; lia).
  reflexivity.
Qed.

Lemma handleDragDrop_same_block
    (toLowerCase : jsstring -> jsstring) (m : Manager) (i : nat) :
  handleDragDrop toLowerCase m i i = m.
Proof.
  unfold handleDragDrop. rewrite Nat.eqb_refl, andb_false_r. reflexivity.
Qed.

(** An index is within a store given as a concatenation. *)
Ltac block_exists :=
  rewrite ?files_setFiles; repeat (rewrite length_app; simpl); simpl; lia.

(** C8, as the code has it. With the list displayed in full, a drag of
    the block at [i] onto the block at [j] takes the record out and puts
    it back just in front of the record that was at [j], the other
    records keeping their order and nothing else changing in the
    manager.  The drag is undone by a second drag: from [j - 1] back
    onto [i] when the record went down ([i < j]; nothing had moved when
    [j = i + 1]), from [j] onto the block at [i + 1] when it went up
    ([j < i]) and that block exists, and by the same drag again when the
    two blocks are neighbours ([i = j + 1]). *)
Theorem move_then_inverse
    (toLowerCase : jsstring -> jsstring) (m : Manager) (i j : nat) :
  currentView m = ListView -> searchTerm m = [] ->
  i < length (files m) -> j < length (files m) -> i <> j ->
  let moved := handleDragDrop toLowerCase m i j in
  (i < j ->
   (exists a x b y c,
       files m = a ++ x :: b ++ y :: c
       /\ length a = i /\ length a + S (length b) = j
       /\ moved = setFiles m (a ++ b ++ x :: y :: c))
   /\ handleDragDrop toLowerCase moved (j - 1) i = m)
  /\ (j < i ->
      (exists a y b x c,
          files m = a ++ y :: b ++ x :: c
          /\ length a = j /\ length a + S (length b) = i
          /\ moved = setFiles m (a ++ x :: y :: b ++ c))
      /\ (S i < length (files m) ->
          handleDragDrop toLowerCase moved j (S i) = m)
      /\ (S j = i -> handleDragDrop toLowerCase moved i j = m)).
Proof.
  intros Hview Hterm Hi Hj Hij moved. unfold moved. clear moved.
  rewrite (handleDragDrop_move toLowerCase m Hview Hterm Hi Hj Hij).
  split.
  - intros Hlt.
    destruct (two_positions (files m) Hlt Hj)
      as (a & x & b & y & c & Hl & Ha & Hb).
    assert (Hre : reorder (files m) i j = a ++ b ++ x :: y :: c).
    { rewrite <- Ha, <- Hb, Hl. apply reorder_forward. }
    rewrite Hre. split.
    + exists a, x, b, y, c.
      split; [exact Hl|]. split; [exact Ha|]. split; [exact Hb|reflexivity].
    + subst i j. destruct b as [|b0 b].
      * simpl. replace (length a + 1 - 1) with (length a) by lia.
        rewrite handleDragDrop_same_block. simpl in Hl. rewrite <- Hl.
        apply setFiles_same.
      * rewrite handleDragDrop_move; try assumption.
        -- rewrite setFiles_setFiles, files_setFiles.
           replace (length a + S (length (b0 :: b)) - 1)
             with (length a + S (length b)) by (simpl; lia).
           simpl app. rewrite reorder_backward.
           simpl in Hl. rewrite <- Hl. apply setFiles_same.
        -- block_exists.
        -- block_exists.
        -- simpl. lia.
  - intros Hlt.
    destruct (two_positions (files m) Hlt Hi)
      as (a & y & b & x & c & Hl & Ha & Hb).
    assert (Hre : reorder (files m) i j = a ++ x :: y :: b ++ c).
    { rewrite <- Ha, <- Hb, Hl. apply reorder_backward. }
    rewrite Hre. split; [|split].
    + exists a, y, b, x, c.
      split; [exact Hl|]. split; [exact Ha|]. split; [exact Hb|reflexivity].
    + intros Hnext. subst i j. destruct c as [|c0 c].
      { rewrite Hl in Hnext.
        repeat (rewrite length_app in Hnext; simpl in Hnext). lia. }
      rewrite handleDragDrop_move; try assumption.
      * rewrite setFiles_setFiles, files_setFiles.
        replace (S (length a + S (length b)))
          with (length a + S (length (y :: b))) by (simpl; lia).
        change (a ++ x :: y :: b ++ c0 :: c)
          with (a ++ x :: (y :: b) ++ c0 :: c).
        rewrite reorder_forward. simpl app.
        rewrite <- Hl. apply setFiles_same.
      * block_exists.
      * block_exists.
      * lia.
    + intros Hnext.
      assert (b = []) by (destruct b; [reflexivity|simpl in Hb; lia]).
      subst b. clear Hnext Hlt Hij. subst i j. simpl in Hl. simpl app.
      rewrite handleDragDrop_move; try assumption.
      * rewrite setFiles_setFiles, files_setFiles.
        change (a ++ x :: y :: c) with (a ++ x :: [] ++ y :: c).
        rewrite reorder_backward. simpl app.
        rewrite <- Hl. apply setFiles_same.
      * block_exists.
      * block_exists.
      * lia.
Qed.

Lemma move_then_inverse_witness :
  handleDragDrop asciiLowerCase
    (handleDragDrop asciiLowerCase threeNotes 0 2) 1 0 = threeNotes
  /\ handleDragDrop asciiLowerCase
       (handleDragDrop asciiLowerCase threeNotes 1 0) 0 2 = threeNotes.
Proof.
  assert (H3 : length (files threeNotes) = 3) by reflexivity.
  split.
  - destruct (move_then_inverse asciiLowerCase threeNotes (i := 0) (j := 2))
      as [Hdown _];
      [reflexivity|reflexivity|rewrite H3; lia|rewrite H3; lia|lia|].
    destruct Hdown as [_ Hback]; [lia|]. exact Hback.
  - destruct (move_then_inverse asciiLowerCase threeNotes (i := 1) (j := 0))
      as [_ Hup];
      [reflexivity|reflexivity|rewrite H3; lia|rewrite H3; lia|lia|].
    destruct Hup as [_ [Hnext _]]; [lia|].
    apply Hnext. rewrite H3. lia.
Defined.

(** C8 fails as stated: once the last of three records has been dragged
    onto the first, no drag between two blocks restores the order,
    because a record is always dropped in front of its target and so
    never lands in the last place. *)
Lemma drag_last_to_front_has_no_inverse :
  ~ every_move_has_inverse asciiLowerCase.
Proof.
  intros H.
  destruct (H threeNotes 2 0) as (i' & j' & Hback);
    [reflexivity|reflexivity|simpl; lia|simpl; lia|discriminate|].
  apply (f_equal (fun m => map id (files m))) in Hback.
  destruct i' as [|[|[|i']]], j' as [|[|[|j']]];
    vm_compute in Hback; discriminate.
Qed.

(* ================================================================= *)
(** ** Records mutated in place *)

Section Mutate.

Variable change : FileObj -> FileObj.
Hypothesis change_id : forall f, id (change f) = id f.

Lemma mutateFile_ids (fs : list FileObj) (fileId : Z) :
  map id (mutateFile fs fileId change) = map id fs.
Proof.
  induction fs as [|f fs IH]; simpl; [reflexivity|].
  destruct (Z.eqb (id f) fileId); simpl; [now rewrite change_id|].
  now rewrite IH.
Qed.

Lemma mutateFile_found (fs : list FileObj) (fileId : Z) :
  findFile (mutateFile fs fileId change) fileId =
  option_map change (findFile fs fileId).
Proof.
  unfold findFile. induction fs as [|f fs IH]; simpl; [reflexivity|].
  destruct (Z.eqb (id f) fileId) eqn:E; simpl.
  - now rewrite change_id, E.
  - now rewrite E.
Qed.

Lemma mutateFile_index (fs : list FileObj) (fileId : Z) :
  findIndex (mutateFile fs fileId change) fileId = findIndex fs fileId.
Proof.
  induction fs as [|f fs IH]; simpl; [reflexivity|].
  destruct (Z.eqb (id f) fileId) eqn:E; simpl.
  - now rewrite change_id, E.
  - now rewrite E, IH.
Qed.

Lemma mutateFile_others (fs : list FileObj) (fileId : Z) (k : nat)
    (g : FileObj) :
  nth_error fs k = Some g -> id g <> fileId ->
  nth_error (mutateFile fs fileId change) k = Some g.
Proof.
  revert k. induction fs as [|f fs IH]; intros [|k] H Hid; simpl in *;
    try discriminate.
  - injection H as ->. apply Z.eqb_neq in Hid. now rewrite Hid.
  - destruct (Z.eqb (id f) fileId); simpl; [exact H|now apply IH].
Qed.

End Mutate.

Lemma findFile_id (fs : list FileObj) (fileId : Z) (f : FileObj) :
  findFile fs fileId = Some f -> In f fs /\ id f = fileId.
Proof.
  unfold findFile. intros H. apply find_some in H as [Hin Hid].
  split; [exact Hin|now apply Z.eqb_eq].
Qed.

Lemma unique_id (fs : list FileObj) (f g : FileObj) :
  NoDup (map id fs) -> In f fs -> In g fs -> id f = id g -> f = g.
Proof.
  induction fs as [|h fs IH]; simpl; intros Hnd Hf Hg Hid; [contradiction|].
  inversion Hnd as [|? ? Hnotin Hnd']; subst.
  destruct Hf as [->|Hf], Hg as [->|Hg]; auto.
  - exfalso. apply Hnotin. rewrite Hid. now apply in_map.
  - exfalso. apply Hnotin. rewrite <- Hid. now apply in_map.
Qed.

Lemma findFile_unique (fs : list FileObj) (f : FileObj) :
  NoDup (map id fs) -> In f fs -> findFile fs (id f) = Some f.
Proof.
  intros Hnd Hin. destruct (findFile fs (id f)) as [g|] eqn:E.
  - apply findFile_id in E as [Hg Hid]. f_equal.
    now apply (unique_id fs).
  - unfold findFile in E.
    pose proof (find_none _ _ E f Hin) as H. simpl in H.
    now rewrite Z.eqb_refl in H.
Qed.

(* ================================================================= *)
(** ** Renaming *)

(** C2, as the code has it. A successful rename sets both the name and
    the whole relative path of the record to the trimmed text of the name
    input (the directory segments of the old path are dropped); every
    other field of the record, the other records and the position of
    every record in the store are unchanged. *)
Theorem rename_replaces_whole_path
    (doc : Document) (inputValue : jsstring) (m m' : Manager) (fileId : Z)
    (newName : jsstring) :
  saveFileName doc inputValue m fileId = (m', RenamedTo newName) ->
  newName = trim inputValue
  /\ (exists f f',
        findFile (files m) fileId = Some f
        /\ findFile (files m') fileId = Some f'
        /\ name f' = newName /\ relativePath f' = newName
        /\ f' = setRelativePath (setName f newName) newName
        /\ id f' = id f /\ size f' = size f /\ type f' = type f
        /\ lastModified f' = lastModified f /\ content f' = content f
        /\ isImage f' = isImage f /\ isVideo f' = isVideo f
        /\ isAudio f' = isAudio f /\ isBinary f' = isBinary f
        /\ isHTML f' = isHTML f)
  /\ m' = setFiles m (files m')
  /\ map id (files m') = map id (files m)
  /\ findIndex (files m') fileId = findIndex (files m) fileId
  /\ (forall k g, nth_error (files m) k = Some g -> id g <> fileId ->
                  nth_error (files m') k = Some g).
Proof.
  unfold saveFileName.
  destruct (negb (getElementById doc (NameDisplay fileId))
            || negb (getElementById doc (NameInput fileId)));
    [discriminate|].
  destruct (findFile (files m) fileId) as [f|] eqn:Ef; [|discriminate].
  destruct (trim inputValue) as [|c rest] eqn:Et; [discriminate|].
  destruct (testClass reservedChar (c :: rest)); [discriminate|].
  intros [= <- <-]. rewrite files_setFiles.
  split; [reflexivity|]. split; [|split; [|split; [|split]]].
  - exists f, (setRelativePath (setName f (c :: rest)) (c :: rest)).
    rewrite mutateFile_found, Ef by reflexivity.
    split; [reflexivity|]. split; [reflexivity|].
    cbn. repeat split.
  - reflexivity.
  - now apply mutateFile_ids.
  - now apply mutateFile_index.
  - intros k g Hk Hid. now apply mutateFile_others.
Qed.

Lemma rename_replaces_whole_path_witness :
  saveFileName (renderFiles asciiLowerCase nestedNote) (js " b.txt ")
    nestedNote 1 = (renamedNote, RenamedTo (js "b.txt"))
  /\ exists f', findFile (files renamedNote) 1 = Some f'
                /\ relativePath f' = js "b.txt".
Proof.
  assert (H : saveFileName (renderFiles asciiLowerCase nestedNote)
                (js " b.txt ") nestedNote 1
              = (renamedNote, RenamedTo (js "b.txt"))) by reflexivity.
  split; [exact H|].
  destruct (rename_replaces_whole_path _ _ _ _ H)
    as (_ & (f & f' & _ & Hf' & _ & Hpath & _) & _).
  exists f'. split; assumption.
Defined.

(** C2 fails as stated: renaming [docs/a.txt] to [b.txt] leaves the path
    [b.txt], not [docs/b.txt]. *)
Lemma rename_drops_directory_prefix : ~ rename_keeps_directory_prefix.
Proof.
  intros H.
  destruct (H (renderFiles asciiLowerCase nestedNote) (js " b.txt ")
              nestedNote renamedNote 1%Z (js "b.txt")
              (exampleFile 1 "a.txt" "docs/a.txt" "text/plain"
                 (Str (js "hello")) false false false)
              (exampleFile 1 "b.txt" "b.txt" "text/plain"
                 (Str (js "hello")) false false false)
              eq_refl eq_refl eq_refl) as [_ Hpath].
  vm_compute in Hpath. discriminate.
Qed.

(** X19. What a rename that is turned down leaves behind: the store as
    it was, for an empty name and for a name with a reserved character;
    no toast of success is shown. *)
Lemma rename_rejected_keeps_store
    (doc : Document) (inputValue : jsstring) (m : Manager) (fileId : Z) :
  trim inputValue = [] \/ testClass reservedChar (trim inputValue) = true ->
  fst (saveFileName doc inputValue m fileId) = m
  /\ forall n, snd (saveFileName doc inputValue m fileId) <> RenamedTo n.
Proof.
  intros H. unfold saveFileName.
  destruct (negb (getElementById doc (NameDisplay fileId))
            || negb (getElementById doc (NameInput fileId)));
    [split; [reflexivity|discriminate]|].
  destruct (findFile (files m) fileId); [|split; [reflexivity|discriminate]].
  destruct (trim inputValue) as [|c rest];
    [split; [reflexivity|discriminate]|].
  destruct H as [H|H]; [discriminate|]. rewrite H.
  split; [reflexivity|discriminate].
Qed.

(** C7, where the code departs from it: a new name with a control
    character in it (here a tab) is accepted by the rename, although the
    validation of ingested files refuses the same name. *)
Theorem rename_accepts_control_character :
  let result :=
    saveFileName (renderFiles asciiLowerCase nestedNote) nameWithTab
      nestedNote 1 in
  snd result = RenamedTo nameWithTab
  /\ option_map name (findFile (files (fst result)) 1) = Some nameWithTab
  /\ testClass reservedChar nameWithTab = false
  /\ testClass reservedOrControlChar nameWithTab = true.
Proof. vm_compute. repeat split. Qed.

(* ================================================================= *)
(** ** Editing content *)

Lemma getElementById_In (doc : Document) (e : ElemId) :
  getElementById doc e = true <-> In e doc.
Proof.
  unfold getElementById. rewrite existsb_exists. split.
  - intros (e' & Hin & Heq).
    destruct e, e'; simpl in Heq; try discriminate;
      try (apply Z.eqb_eq in Heq; now subst);
      apply eqb_eq in Heq; now subst.
  - intros Hin. exists e. split; [exact Hin|].
    destruct e; simpl; try apply Z.eqb_refl; apply eqb_refl.
Qed.








(** The size stored by an edit is the number of UTF-16 code units of
    the new content. *)
Lemma saveFileContent_updated
    (doc : Document) (value : jsstring) (m m' : Manager) (fileId : Z) :
  saveFileContent doc value m fileId = (m', ContentUpdated) ->
  In (ContentTextarea fileId) doc
  /\ exists f,
       findFile (files m) fileId = Some f
       /\ findFile (files m') fileId
          = Some (setSize (setContent f (Str value)) (Z.of_nat (length value))).
Proof.
  unfold saveFileContent.
  destruct (getElementById doc (ContentDisplay fileId)); [|discriminate].
  destruct (getElementById doc (ContentTextarea fileId)) eqn:Ea;
    [|discriminate].
  simpl. destruct (findFile (files m) fileId) as [f|] eqn:Ef; [|discriminate].
  intros [= <-]. split; [now apply getElementById_In|].
  exists f. split; [reflexivity|].
  rewrite files_setFiles, mutateFile_found, Ef by reflexivity. reflexivity.
Qed.





(** C9, where the code departs from it: after a successful edit the size
    is the number of UTF-16 code units of the new content, which for the
    one-character text U+4E2D is 1 while the content takes 3 bytes. *)
Theorem edit_size_counts_code_units :
  let result :=
    saveFileContent (renderFiles asciiLowerCase photoAndNote) ideograph
      photoAndNote (id note) in
  snd result = ContentUpdated
  /\ option_map content (findFile (files (fst result)) (id note))
     = Some (Str ideograph)
  /\ option_map size (findFile (files (fst result)) (id note)) = Some 1%Z
  /\ Z.of_nat (utf8Length ideograph) = 3%Z.
Proof. vm_compute. repeat split. Qed.

(** For content of ASCII characters the stored size is the byte
    length. *)
Lemma utf8Length_ascii (text : jsstring) :
  Forall (fun c => (c < 128)%N) text -> utf8Length text = length text.
Proof.
  induction 1 as [|c text Hc _ IH]; simpl; [reflexivity|].
  apply N.ltb_lt in Hc. now rewrite Hc, IH.
Qed.

(* ================================================================= *)
(** ** The directory tree *)

Lemma getEntry_setEntry_same (part : jsstring) (item : TreeNode)
    (es : list (jsstring * TreeNode)) :
  getEntry part (setEntry part item es) = Some item.
Proof.
  induction es as [|[key old] es IH]; simpl.
  - now rewrite eqb_refl.
  - destruct (JS.eqb key part) eqn:E; simpl; now rewrite E.
Qed.

Lemma getEntry_setEntry_other (part other : jsstring) (item : TreeNode)
    (es : list (jsstring * TreeNode)) :
  part <> other ->
  getEntry other (setEntry part item es) = getEntry other es.
Proof.
  intros Hne. induction es as [|[key old] es IH]; simpl.
  - apply eqb_neq in Hne. now rewrite Hne.
  - destruct (JS.eqb key part) eqn:E; simpl.
    + apply eqb_eq in E. subst key. apply eqb_neq in Hne. now rewrite Hne.
    + now rewrite IH.
Qed.

Lemma setEntry_unchanged (part : jsstring) (item : TreeNode)
    (es : list (jsstring * TreeNode)) :
  getEntry part es = Some item -> setEntry part item es = es.
Proof.
  induction es as [|[key old] es IH]; simpl; [discriminate|].
  destruct (JS.eqb key part); [now intros [= ->]|].
  intros H. now rewrite IH.
Qed.

Lemma payload_insertParts (parts : list jsstring) (file : FileObj)
    (tree : TreeNode) :
  payload (insertParts parts file tree) = payload tree.
Proof. destruct parts; reflexivity. Qed.

(** A walk never replaces a node that is already there. *)
Lemma insertParts_keeps (path : list jsstring) :
  forall (tree n : TreeNode) (parts : list jsstring) (file : FileObj),
    nodeAt path tree = Some n ->
    exists n', nodeAt path (insertParts parts file tree) = Some n'
               /\ payload n' = payload n.
Proof.
  induction path as [|seg path IH]; intros tree n parts file Hn.
  - injection Hn as <-. eexists. split; [reflexivity|].
    apply payload_insertParts.
  - simpl in Hn.
    destruct (getEntry seg (entries tree)) as [item|] eqn:Eseg;
      [|discriminate].
    destruct parts as [|part parts]; simpl.
    + exists n. now rewrite Eseg.
    + destruct (jsstring_eq_dec part seg) as [->|Hne].
      * rewrite getEntry_setEntry_same, Eseg. now apply IH.
      * rewrite getEntry_setEntry_other, Eseg by exact Hne. now exists n.
Qed.

(** A walk along a path whose last slot is taken changes nothing. *)
Lemma insertParts_taken (parts : list jsstring) :
  forall (tree n : TreeNode) (file : FileObj),
    nodeAt parts tree = Some n -> insertParts parts file tree = tree.
Proof.
  induction parts as [|part parts IH]; intros tree n file Hn; simpl;
    [reflexivity|].
  simpl in Hn.
  destruct (getEntry part (entries tree)) as [item|] eqn:E; [|discriminate].
  rewrite (IH item n file Hn), (setEntry_unchanged _ _ E).
  now destruct tree.
Qed.

(** A walk along a path whose last slot is free ends on a leaf for the
    record. *)
Lemma insertParts_free (parts : list jsstring) :
  forall (tree : TreeNode) (file : FileObj),
    nodeAt parts tree = None ->
    exists n', nodeAt parts (insertParts parts file tree) = Some n'
               /\ payload n' = Some file.
Proof.
  induction parts as [|part parts IH]; intros tree file Hn; simpl in *;
    [discriminate|].
  rewrite getEntry_setEntry_same.
  destruct (getEntry part (entries tree)) as [item|] eqn:E.
  - now apply IH.
  - destruct parts as [|next parts].
    + eexists. split; reflexivity.
    + apply IH. reflexivity.
Qed.

Lemma buildFileTreeFrom_keeps (useRelative : bool) (fs : list FileObj) :
  forall (tree n : TreeNode) (path : list jsstring),
    nodeAt path tree = Some n ->
    exists n', nodeAt path (buildFileTreeFrom useRelative tree fs) = Some n'
               /\ payload n' = payload n.
Proof.
  induction fs as [|f fs IH]; intros tree n path Hn; simpl.
  - now exists n.
  - destruct (insertParts_keeps path tree
                (split 47 (treePath useRelative f)) f Hn) as (n1 & Hn1 & Hp1).
    destruct (IH _ _ _ Hn1) as (n' & Hn' & Hp').
    exists n'. split; [exact Hn'|congruence].
Qed.

(** C3, as the code has it. For paths whose segments are plain property
    names: a node that is in the tree once some records have been
    processed is still at its place, with the same kind and the same
    record, whatever records are processed after them (the first
    insertion keeps the slot); and one more record, its path made of
    plain segments too, is attached as a leaf at the end of its path
    when that slot is free, and leaves the tree exactly as it was when
    the slot is taken. *)
Theorem first_write_wins
    (useRelative : bool) (fs later : list FileObj) :
  plainSegments useRelative (fs ++ later) ->
  (forall path n,
      nodeAt path (buildFileTree useRelative fs) = Some n ->
      exists n',
        nodeAt path (buildFileTree useRelative (fs ++ later)) = Some n'
        /\ payload n' = payload n /\ isFileNode n' = isFileNode n)
  /\ (forall f,
        plainSegments useRelative [f] ->
        let tree := buildFileTree useRelative fs in
        let parts := split 47 (treePath useRelative f) in
        (nodeAt parts tree = None ->
         exists n', nodeAt parts (insertFile useRelative tree f) = Some n'
                    /\ payload n' = Some f)
        /\ (nodeAt parts tree <> None -> insertFile useRelative tree f = tree)).
Proof.
  intros _. split.
  - intros path n Hn. unfold buildFileTree, buildFileTreeFrom.
    rewrite fold_left_app.
    destruct (buildFileTreeFrom_keeps useRelative later _ path Hn)
      as (n' & Hn' & Hp).
    exists n'. split; [exact Hn'|]. split; [exact Hp|].
    unfold isFileNode. now rewrite Hp.
  - intros f _ tree parts. split.
    + intros Hfree. now apply insertParts_free.
    + intros Htaken. unfold insertFile. fold parts.
      destruct (nodeAt parts tree) as [n|] eqn:E; [|congruence].
      now apply (insertParts_taken parts tree f E).
Qed.

Lemma first_write_wins_witness :
  exists n',
    nodeAt [js "a"] (buildFileTree true ([inFolder] ++ [namedLikeFolder]))
    = Some n'
    /\ payload n' = None.
Proof.
  assert (Hplain : plainSegments true ([inFolder] ++ [namedLikeFolder])).
  { intros f part [<-|[<-|[]]] Hpart; vm_compute in Hpart;
      repeat (destruct Hpart as [<-|Hpart]; [reflexivity|]);
      contradiction. }
  destruct (@first_write_wins true [inFolder] [namedLikeFolder] Hplain)
    as [Hkeep _].
  destruct (Hkeep [js "a"]
              (Node None [(js "b", Node (Some inFolder) [])]) eq_refl)
    as (n' & Hn' & Hp & _).
  exists n'. split; [exact Hn'|exact Hp].
Defined.

(** C3 fails as stated: with [a/b] processed before the file [a], the
    slot [a] stays the directory made for [a/b]. *)
Lemma earlier_directory_keeps_slot : ~ last_write_wins.
Proof.
  intros H.
  specialize (H true inFolder namedLikeFolder [js "a"] [js "b"]
                (Node None [(js "b", Node (Some inFolder) [])])
                eq_refl eq_refl).
  assert (Hnone : @None FileObj = Some namedLikeFolder);
    [|discriminate].
  apply H; [discriminate|reflexivity].
Qed.

(* ================================================================= *)
(** ** Search *)

Lemma getMatchPositions_positionsIn
    (toLowerCase : jsstring -> jsstring) (text term : jsstring) :
  term <> [] ->
  getMatchPositions toLowerCase text term = positionsIn toLowerCase term text.
Proof.
  intros Hterm. destruct text as [|c text]; [reflexivity|].
  now apply getMatchPositions_occurrences.
Qed.

Lemma fold_left_push (A B : Type) (g : A -> list B) (l : list A) :
  forall found,
    fold_left (fun found x => found ++ g x) l found = found ++ flat_map g l.
Proof.
  induction l as [|x l IH]; intros found; simpl.
  - now rewrite app_nil_r.
  - now rewrite IH, app_assoc.
Qed.

Lemma toMatches_field (fid : Z) (field : MatchField) (positions : list nat)
    (sm : SearchMatch) :
  In sm (toMatches fid field positions) ->
  fileId sm = fid /\ matchType sm = field.
Proof.
  unfold toMatches. intros H. apply in_map_iff in H as (ip & <- & _).
  split; reflexivity.
Qed.

(** C4, as the code has it. For a non-empty term, the matches are those
    of the records in store order, and for each record the occurrences of
    the term in its lower-cased name followed by the occurrences in its
    lower-cased content, the content being scanned exactly when it is a
    string and the record is not flagged binary; so every content match
    belongs to such a record, whatever its kind. *)
Theorem search_scans_string_content
    (toLowerCase : jsstring -> jsstring) (m : Manager) :
  searchTerm m <> [] ->
  searchMatches (findAllMatches toLowerCase m)
  = flat_map
      (fun f =>
         toMatches (id f) InName
           (positionsIn toLowerCase (searchTerm m) (name f))
         ++ match scannedText f with
            | Some text =>
                toMatches (id f) InContent
                  (positionsIn toLowerCase (searchTerm m) text)
            | None => []
            end)
      (files m)
  /\ (forall sm,
        In sm (searchMatches (findAllMatches toLowerCase m)) ->
        matchType sm = InContent ->
        exists f text,
          In f (files m) /\ fileId sm = id f
          /\ content f = Str text /\ isBinary f = false).
Proof.
  intros Hterm.
  assert (Heq : forall f,
             fileMatches toLowerCase (searchTerm m) f
             = toMatches (id f) InName
                 (positionsIn toLowerCase (searchTerm m) (name f))
               ++ match scannedText f with
                  | Some text =>
                      toMatches (id f) InContent
                        (positionsIn toLowerCase (searchTerm m) text)
                  | None => []
                  end).
  { intros f. unfold fileMatches, scannedText.
    rewrite getMatchPositions_positionsIn by exact Hterm.
    destruct (content f) as [text|bytes]; [|reflexivity].
    destruct (isBinary f); simpl; [reflexivity|].
    now rewrite getMatchPositions_positionsIn by exact Hterm. }
  assert (Hall : searchMatches (findAllMatches toLowerCase m)
                 = flat_map (fileMatches toLowerCase (searchTerm m)) (files m)).
  { unfold findAllMatches. simpl. now rewrite fold_left_push. }
  split.
  - rewrite Hall. apply flat_map_ext. exact Heq.
  - intros sm Hin Hfield. rewrite Hall in Hin.
    apply in_flat_map in Hin as (f & Hf & Hin). rewrite Heq in Hin.
    apply in_app_or in Hin as [Hin|Hin].
    + apply toMatches_field in Hin as [_ Hname]. congruence.
    + unfold scannedText in Hin.
      destruct (content f) as [text|bytes] eqn:Ec; [|contradiction].
      destruct (isBinary f) eqn:Eb; [contradiction|].
      apply toMatches_field in Hin as [Hid _].
      exists f, text. repeat split; auto.
Qed.

Lemma search_scans_string_content_witness :
  searchMatches searchedForPng
  = [ mkSearchMatch 7 InName 4 0; mkSearchMatch 7 InContent 11 0 ].
Proof.
  assert (Hterm : searchTerm searchedForPng <> []) by discriminate.
  destruct (@search_scans_string_content asciiLowerCase searchedForPng Hterm)
    as [Hall _].
  change (findAllMatches asciiLowerCase searchedForPng) with searchedForPng
    in Hall.
  rewrite Hall. reflexivity.
Defined.

(** C4 fails as stated: the data URL kept as the content of an image is
    scanned, and a search for [png] finds it there. *)
Lemma image_content_is_scanned :
  ~ content_matches_only_in_textual asciiLowerCase.
Proof.
  intros H.
  specialize (H searchedForPng photo (mkSearchMatch 7 InContent 11 0)).
  assert (Hfalse : isTextual (mediaType photo) = true); [|discriminate].
  apply H.
  - discriminate.
  - simpl. repeat constructor; simpl; intuition discriminate.
  - left. reflexivity.
  - vm_compute. right. left. reflexivity.
  - reflexivity.
  - reflexivity.
Qed.

(* ================================================================= *)
(** ** The filter of the rendering *)


(* ================================================================= *)
(** ** Documents produced by [renderFiles] *)

















(* ================================================================= *)
(** ** Ingestion of a batch *)

Section Ingestion.

Variable toLowerCase : jsstring -> jsstring.
Variable readAsDataURL : RawFile -> option jsstring.
Variable readAsArrayBuffer : RawFile -> option (list N).
Variable readAsText : RawFile -> option jsstring.
Variable newId : RawFile -> Z.

Local Notation read :=
  (readFile readAsDataURL readAsArrayBuffer readAsText).
Local Notation ingest :=
  (handleFileSelect toLowerCase readAsDataURL readAsArrayBuffer readAsText
     newId).
Local Notation recordsOf :=
  (ingestedRecords readAsDataURL readAsArrayBuffer readAsText newId).

Lemma filter_none (A : Type) (keep : A -> bool) (l : list A) :
  (forall x, In x l -> keep x = false) -> filter keep l = [].
Proof.
  induction l as [|a l IH]; intros H; simpl; [reflexivity|].
  rewrite (H a (or_introl eq_refl)). apply IH. intros x Hx. apply H. now right.
Qed.

Lemma handleFileSelect_isProcessing (m : Manager) (batch : list RawFile) :
  isProcessing (ingest m batch) = isProcessing m.
Proof.
  unfold handleFileSelect. destruct batch; [reflexivity|].
  destruct (isProcessing m) eqn:E; [exact E|exact E].
Qed.

Lemma processFileAsync_fold (accepted : list RawFile) :
  forall fs,
    fold_left
      (processFileAsync readAsDataURL readAsArrayBuffer readAsText newId)
      accepted fs
    = fs ++ recordsOf accepted.
Proof.
  induction accepted as [|file accepted IH]; intros fs; simpl.
  - now rewrite app_nil_r.
  - rewrite IH. unfold processFileAsync.
    destruct (read file); simpl; [now rewrite <- app_assoc|reflexivity].
Qed.

Lemma handleFileSelect_files (m : Manager) (batch : list RawFile) :
  files (ingest m batch)
  = files m ++ recordsOf (if isProcessing m then []
                          else filter (isValid toLowerCase (files m)) batch).
Proof.
  unfold handleFileSelect. destruct batch as [|file batch].
  - destruct (isProcessing m); simpl; now rewrite app_nil_r.
  - destruct (isProcessing m); [simpl; now rewrite app_nil_r|].
    rewrite files_setFiles. apply processFileAsync_fold.
Qed.

(** X1. Ingestion only appends: the records already in the store stay
    where they are, unchanged, in front of the new ones, and the store
    grows by exactly the number of files of the batch that passed the
    validation and whose read succeeded (none while another batch is in
    flight). *)
Theorem ingestion_appends (m : Manager) (batch : list RawFile) :
  let accepted := if isProcessing m then []
                  else filter (isValid toLowerCase (files m)) batch in
  let readable :=
    filter (fun file => match read file with Some _ => true | None => false end)
      accepted in
  firstn (length (files m)) (files (ingest m batch)) = files m
  /\ length (files (ingest m batch)) = length (files m) + length readable
  /\ map rawName readable
     = map name (skipn (length (files m)) (files (ingest m batch))).
Proof.
  intros accepted readable. rewrite handleFileSelect_files. fold accepted.
  rewrite firstn_app, Nat.sub_diag, firstn_all, app_nil_r.
  rewrite skipn_app, Nat.sub_diag, skipn_all, length_app. simpl.
  split; [reflexivity|].
  assert (H : map name (recordsOf accepted) = map rawName readable).
  { unfold readable, ingestedRecords.
    induction accepted as [|file accepted IH]; simpl; [reflexivity|].
    destruct (read file); simpl; now rewrite IH. }
  split; [|now rewrite H].
  f_equal. rewrite <- (length_map name), H. apply length_map.
Qed.

Lemma validateFile_Valid (fs : list FileObj) (file : RawFile) :
  validateFile toLowerCase fs file = Valid ->
  rawSize file <> 0%Z /\ (rawSize file <= maxFileSize)%Z
  /\ (member (rawType file) allowedTypes = true
      \/ isTextFile toLowerCase (rawName file) = true)
  /\ isDuplicate fs file = false
  /\ testClass reservedOrControlChar (rawName file) = false.
Proof.
  unfold validateFile.
  destruct (Z.eqb (rawSize file) 0) eqn:Esize; [discriminate|].
  destruct (Z.gtb (rawSize file) maxFileSize) eqn:Emax; [discriminate|].
  destruct (member (rawType file) allowedTypes) eqn:Etype;
    destruct (isTextFile toLowerCase (rawName file)) eqn:Etext; simpl;
    try discriminate;
    (destruct (isDuplicate fs file); [discriminate|]);
    (destruct (testClass reservedOrControlChar (rawName file));
     [discriminate|]);
    intros _; apply Z.eqb_neq in Esize; rewrite Z.gtb_ltb in Emax;
    apply Z.ltb_ge in Emax; repeat split; auto.
Qed.

(** X2. Every record that an ingestion adds was let through by each
    check of the validation: its size is not zero and at most 50 MB, its
    declared type is on the allow-list or its name has a text extension,
    its name has no reserved or control character, and it differs from
    every record that was in the store when the batch started. *)
Theorem ingested_records_passed_validation
    (m : Manager) (batch : list RawFile) (f : FileObj) :
  In f (files (ingest m batch)) ->
  In f (files m)
  \/ (size f <> 0%Z /\ (size f <= maxFileSize)%Z
      /\ (member (type f) allowedTypes = true
          \/ isTextFile toLowerCase (name f) = true)
      /\ testClass reservedOrControlChar (name f) = false
      /\ forall g, In g (files m) -> sameRecord g f = false).
Proof.
  rewrite handleFileSelect_files. intros Hin.
  apply in_app_or in Hin as [Hin|Hin]; [now left|right].
  destruct (isProcessing m); [contradiction|].
  unfold ingestedRecords in Hin.
  apply in_flat_map in Hin as (file & Hfile & Hin).
  apply filter_In in Hfile as [_ Hvalid]. unfold isValid in Hvalid.
  destruct (validateFile toLowerCase (files m) file) eqn:E; try discriminate.
  apply validateFile_Valid in E as (Hsize & Hmax & Htype & Hdup & Hname).
  destruct (read file) as [result|]; [|contradiction].
  destruct Hin as [<-|[]]. simpl.
  repeat split; auto.
  - destruct Htype as [Htype|Htext]; [left|now right].
    destruct (rawType file); [discriminate|exact Htype].
  - intros g Hg. rewrite isDuplicate_false in Hdup. exact (Hdup g Hg).
Qed.

Lemma isDuplicate_app (fs added : list FileObj) (file : RawFile) :
  isDuplicate (fs ++ added) file
  = isDuplicate fs file || isDuplicate added file.
Proof. unfold isDuplicate. apply existsb_app. Qed.

Lemma sameFile_makeFileObj (file : RawFile) (result : Content) :
  sameFile (makeFileObj newId file result) file = true.
Proof.
  unfold sameFile. simpl. rewrite eqb_refl, Z.eqb_refl, Z.sub_diag.
  reflexivity.
Qed.

(** X3. Submitting the same batch a second time adds nothing, provided
    the read of every accepted file succeeded the first time: each file
    is now refused, as before or as a duplicate of a stored record. *)
Theorem reingestion_adds_nothing (m : Manager) (batch : list RawFile) :
  (forall file, In file batch ->
                isValid toLowerCase (files m) file = true ->
                read file <> None) ->
  files (ingest (ingest m batch) batch) = files (ingest m batch).
Proof.
  intros Hread.
  rewrite (handleFileSelect_files (ingest m batch)).
  rewrite handleFileSelect_isProcessing.
  destruct (isProcessing m) eqn:Ebusy; [simpl; now rewrite app_nil_r|].
  rewrite filter_none; [simpl; now rewrite app_nil_r|].
  rewrite handleFileSelect_files, Ebusy.
  set (accepted := filter (isValid toLowerCase (files m)) batch) in *.
  intros file Hfile.
  unfold isValid, validateFile. rewrite isDuplicate_app.
  destruct (Z.eqb (rawSize file) 0) eqn:Esize; [reflexivity|].
  destruct (Z.gtb (rawSize file) maxFileSize) eqn:Emax; [reflexivity|].
  destruct (negb (member (rawType file) allowedTypes)
            && negb (isTextFile toLowerCase (rawName file))) eqn:Etype;
    [reflexivity|].
  destruct (isDuplicate (files m) file) eqn:Edup; [reflexivity|]. simpl.
  destruct (testClass reservedOrControlChar (rawName file)) eqn:Ename.
  - now destruct (isDuplicate (recordsOf accepted) file).
  - assert (Hvalid : isValid toLowerCase (files m) file = true).
    { unfold isValid, validateFile.
      now rewrite Esize, Emax, Etype, Edup, Ename. }
    replace (isDuplicate (recordsOf accepted) file) with true; [reflexivity|].
    symmetry. unfold isDuplicate. apply existsb_exists.
    destruct (read file) as [result|] eqn:Eread;
      [|exfalso; now apply (Hread file Hfile Hvalid)].
    exists (makeFileObj newId file result).
    split; [|apply sameFile_makeFileObj].
    unfold ingestedRecords. apply in_flat_map. exists file.
    split; [apply filter_In; now split|]. rewrite Eread. now left.
Qed.

End Ingestion.

(** X4. For a record built from a file whose read succeeded: an
    [ArrayBuffer] is stored only for a record flagged binary that is
    neither image, video nor audio; and the template of its content
    throws exactly when the record is named [.html] or [.htm] and holds
    an [ArrayBuffer], so every other ingested record gets its block. *)
Theorem ingested_record_rendering
    (readAsDataURL : RawFile -> option jsstring)
    (readAsArrayBuffer : RawFile -> option (list N))
    (readAsText : RawFile -> option jsstring) (newId : RawFile -> Z)
    (file : RawFile) (result : Content) :
  readFile readAsDataURL readAsArrayBuffer readAsText file = Some result ->
  let f := makeFileObj newId file result in
  ((exists bytes, content f = Buf bytes) ->
   isBinary f = true /\ isImage f = false /\ isVideo f = false
   /\ isAudio f = false)
  /\ (createFileContentDisplay f = None <->
      isHTML f = true /\ exists bytes, content f = Buf bytes).
Proof.
  intros Hread f.
  assert (Hbuf : (exists bytes, content f = Buf bytes) ->
                 isBinary f = true /\ isImage f = false
                 /\ isVideo f = false /\ isAudio f = false).
  { intros [bytes Hc]. unfold f in Hc. cbn [content makeFileObj] in Hc.
    subst result. unfold f. cbn [isBinary isImage isVideo isAudio makeFileObj].
    unfold readFile in Hread.
    destruct (startsWith (js "image/") (rawType file)) eqn:Ei;
      [destruct (readAsDataURL file); discriminate|].
    destruct (startsWith (js "video/") (rawType file)) eqn:Ev;
      [destruct (readAsDataURL file); discriminate|].
    destruct (startsWith (js "audio/") (rawType file)) eqn:Ea;
      [destruct (readAsDataURL file); discriminate|].
    cbn [orb] in Hread.
    destruct (isBinaryFile (rawType file));
      [auto|destruct (readAsText file); discriminate]. }
  split; [exact Hbuf|].
  unfold createFileContentDisplay, mediaType. split.
  - destruct (content f) as [text|bytes] eqn:Ec.
    + destruct (isHTML f), (isImage f), (isVideo f), (isAudio f),
        (isBinary f); discriminate.
    + destruct (Hbuf (ex_intro _ bytes eq_refl)) as (_ & -> & -> & ->).
      destruct (isHTML f); [intros _; split; [reflexivity|now exists bytes]|].
      destruct (isBinary f); discriminate.
  - intros [-> [bytes ->]]. reflexivity.
Qed.

(* ================================================================= *)
(** ** Search navigation *)

Lemma setCurrentMatchIndex_twice (m : Manager) (i : nat) :
  setCurrentMatchIndex (setCurrentMatchIndex m i) (currentMatchIndex m) = m.
Proof. now destruct m. Qed.

Lemma navigateSearch_next (m : Manager) :
  searchMatches m <> [] ->
  navigateSearch m (js "next")
  = setCurrentMatchIndex m
      ((currentMatchIndex m + 1) mod length (searchMatches m)).
Proof.
  unfold navigateSearch. destruct (searchMatches m); [congruence|reflexivity].
Qed.

Lemma navigateSearch_prev (m : Manager) :
  searchMatches m <> [] ->
  navigateSearch m (js "prev")
  = setCurrentMatchIndex m
      ((currentMatchIndex m + length (searchMatches m) - 1)
       mod length (searchMatches m)).
Proof.
  unfold navigateSearch. destruct (searchMatches m); [congruence|reflexivity].
Qed.

Lemma iterate_next (m : Manager) (k : nat) :
  searchMatches m <> [] ->
  Nat.iter k (fun s => navigateSearch s (js "next")) m
  = setCurrentMatchIndex m
      (if k =? 0 then currentMatchIndex m
       else (currentMatchIndex m + k) mod length (searchMatches m)).
Proof.
  intros Hm. induction k as [|k IH]; simpl; [now destruct m|].
  rewrite IH, navigateSearch_next by exact Hm. simpl.
  unfold setCurrentMatchIndex. simpl. f_equal.
  assert (Hn : length (searchMatches m) <> 0)
    by (destruct (searchMatches m); [congruence|discriminate]).
  destruct (k =? 0) eqn:Ek.
  - apply Nat.eqb_eq in Ek. subst k. now rewrite Nat.add_1_r.
  - rewrite Nat.Div0.add_mod_idemp_l. f_equal. lia.
Qed.

(** X5. With the cursor on one of the matches, a step forward followed
    by a step back, or a step back followed by a step forward, leaves
    the manager as it was, and as many steps forward as there are matches
    bring the cursor back where it started. *)
Theorem navigation_round_trip (m : Manager) :
  currentMatchIndex m < length (searchMatches m) ->
  navigateSearch (navigateSearch m (js "next")) (js "prev") = m
  /\ navigateSearch (navigateSearch m (js "prev")) (js "next") = m
  /\ Nat.iter (length (searchMatches m))
       (fun s => navigateSearch s (js "next")) m = m.
Proof.
  intros Hidx.
  assert (Hm : searchMatches m <> [])
    by (destruct (searchMatches m); [simpl in Hidx; lia|discriminate]).
  set (n := length (searchMatches m)) in *.
  set (i := currentMatchIndex m) in *.
  split; [|split].
  - rewrite navigateSearch_next by exact Hm.
    rewrite navigateSearch_prev by exact Hm. cbn [searchMatches
      currentMatchIndex setCurrentMatchIndex]. fold n i.
    replace (((i + 1) mod n + n - 1) mod n) with i.
    + apply setCurrentMatchIndex_twice.
    + destruct (Nat.eq_dec (i + 1) n) as [E|E].
      * rewrite E, Nat.Div0.mod_same. simpl.
        rewrite Nat.mod_small by lia. lia.
      * rewrite (Nat.mod_small (i + 1)) by lia.
        replace (i + 1 + n - 1) with (i + 1 * n) by lia.
        rewrite Nat.Div0.mod_add, Nat.mod_small; lia.
  - rewrite navigateSearch_prev by exact Hm.
    rewrite navigateSearch_next by exact Hm. cbn [searchMatches
      currentMatchIndex setCurrentMatchIndex]. fold n i.
    replace (((i + n - 1) mod n + 1) mod n) with i.
    + apply setCurrentMatchIndex_twice.
    + destruct (Nat.eq_dec i 0) as [E|E].
      * rewrite E. simpl. rewrite (Nat.mod_small (n - 1)) by lia.
        replace (n - 1 + 1) with n by lia. now rewrite Nat.Div0.mod_same.
      * replace (i + n - 1) with (i - 1 + 1 * n) by lia.
        rewrite Nat.Div0.mod_add, (Nat.mod_small (i - 1)) by lia.
        replace (i - 1 + 1) with i by lia. rewrite Nat.mod_small; lia.
  - rewrite iterate_next by exact Hm. fold n i.
    replace (n =? 0) with false by (symmetry; apply Nat.eqb_neq; lia).
    replace (i + n) with (i + 1 * n) by lia.
    rewrite Nat.Div0.mod_add, Nat.mod_small by lia.
    unfold i. now destruct m.
Qed.

(** X6. After a search has been set, after any step of the navigation
    and after the search has been cleared, the cursor names one of the
    matches whenever there are matches, so the counter reads [k/n] with
    [1 <= k <= n], or [0/0] without matches. *)
Theorem cursor_stays_in_range
    (toLowerCase : jsstring -> jsstring) (m : Manager)
    (value direction : jsstring) :
  let ok s :=
    cursorInRange s
    /\ (searchMatches s <> [] ->
        1 <= fst (updateSearchNav s) <= snd (updateSearchNav s))
    /\ (searchMatches s = [] -> updateSearchNav s = (0, 0)) in
  ok (handleSearch toLowerCase m value)
  /\ ok (navigateSearch m direction)
  /\ ok (clearSearch m).
Proof.
  assert (Hok : forall s, cursorInRange s ->
            cursorInRange s
            /\ (searchMatches s <> [] ->
                1 <= fst (updateSearchNav s) <= snd (updateSearchNav s))
            /\ (searchMatches s = [] -> updateSearchNav s = (0, 0))).
  { intros s Hs. split; [exact Hs|]. unfold updateSearchNav. split.
    - intros Hne. destruct Hs as [Hs|Hs]; [congruence|].
      replace (0 <? length (searchMatches s)) with true
        by (symmetry; apply Nat.ltb_lt; lia).
      simpl. lia.
    - intros ->. reflexivity. }
  intros ok. unfold ok. split; [|split]; apply Hok.
  - unfold cursorInRange, handleSearch.
    destruct (toLowerCase value); [now left|].
    unfold findAllMatches. simpl.
    destruct (fold_left _ _ _); [now left|right; simpl; lia].
  - unfold cursorInRange, navigateSearch.
    destruct (searchMatches m) as [|sm rest] eqn:E; [left; exact E|].
    right. destruct (JS.eqb direction (js "next"));
      cbn [currentMatchIndex searchMatches setCurrentMatchIndex];
      rewrite E; apply Nat.mod_upper_bound; discriminate.
  - now left.
Qed.

(* ================================================================= *)
(** ** Matches and the displayed records *)

Lemma occurrences_In (term text : jsstring) (p : nat) :
  In p (occurrences term text) <->
  p < length text /\ exists after, skipn p text = term ++ after.
Proof.
  unfold occurrences. rewrite filter_In, in_seq, startsWith_prefix.
  split; intros [H1 H2]; (split; [lia|exact H2]).
Qed.






Lemma filter_seq_sorted (keep : nat -> bool) (len : nat) :
  forall start, StronglySorted lt (filter keep (seq start len)).
Proof.
  induction len as [|len IH]; intros start; simpl; [constructor|].
  destruct (keep start); [|apply IH].
  constructor; [apply IH|].
  apply Forall_forall. intros p Hp. apply filter_In in Hp as [Hp _].
  apply in_seq in Hp. lia.
Qed.

(** X8. For a non-empty text and a non-empty term, [getMatchPositions]
    returns, in strictly increasing order, exactly the positions at
    which the term starts in the lower-cased text, occurrences that
    overlap an earlier one included. *)
Theorem match_positions_exact
    (toLowerCase : jsstring -> jsstring) (text term : jsstring) :
  term <> [] -> text <> [] ->
  StronglySorted lt (getMatchPositions toLowerCase text term)
  /\ forall p,
       In p (getMatchPositions toLowerCase text term) <->
       p < length (toLowerCase text)
       /\ exists after, skipn p (toLowerCase text) = term ++ after.
Proof.
  intros Hterm Htext.
  rewrite getMatchPositions_occurrences by assumption. split.
  - apply filter_seq_sorted.
  - intros p. apply occurrences_In.
Qed.

(* ================================================================= *)
(** ** Escaping for the page *)

Lemma escapeChar_cases (c : N) :
  (c <> 38 /\ c <> 60 /\ c <> 62 /\ c <> 34 /\ c <> 39
   /\ escapeChar c = [c])%N
  \/ (c = 38 /\ escapeChar c = [38; 97; 109; 112; 59])%N
  \/ (c = 60 /\ escapeChar c = [38; 108; 116; 59])%N
  \/ (c = 62 /\ escapeChar c = [38; 103; 116; 59])%N
  \/ (c = 34 /\ escapeChar c = [38; 113; 117; 111; 116; 59])%N
  \/ (c = 39 /\ escapeChar c = [38; 35; 48; 51; 57; 59])%N.
Proof.
  unfold escapeChar.
  destruct (N.eqb_spec c 38) as [->|H1]; [right; left; now split|].
  destruct (N.eqb_spec c 60) as [->|H2]; [right; right; left; now split|].
  destruct (N.eqb_spec c 62) as [->|H3];
    [right; right; right; left; now split|].
  destruct (N.eqb_spec c 34) as [->|H4];
    [right; right; right; right; left; now split|].
  destruct (N.eqb_spec c 39) as [->|H5];
    [right; right; right; right; right; now split|].
  left. repeat split; assumption.
Qed.

Lemma escapeHtml_cons (c : N) (text : jsstring) :
  escapeHtml (c :: text) = escapeChar c ++ escapeHtml text.
Proof. reflexivity. Qed.

(** X9. The text produced by [escapeHtml] has no [<], [>], double quote
    or apostrophe left in it, is the text itself when the text has none
    of the five special characters, and is never shorter than the
    text. *)
Theorem escapeHtml_output_is_inert (text : jsstring) :
  Forall (fun c => c <> 60 /\ c <> 62 /\ c <> 34 /\ c <> 39)%N
    (escapeHtml text)
  /\ (Forall (fun c => c <> 38 /\ c <> 60 /\ c <> 62 /\ c <> 34 /\ c <> 39)%N
        text -> escapeHtml text = text)
  /\ length text <= length (escapeHtml text).
Proof.
  split; [|split].
  - induction text as [|c text IH]; [constructor|].
    rewrite escapeHtml_cons. apply Forall_app. split; [|exact IH].
    destruct (escapeChar_cases c)
      as [(H1 & H2 & H3 & H4 & H5 & ->)|[[-> ->]|[[-> ->]|[[-> ->]|[[-> ->]|[-> ->]]]]]];
      repeat constructor; try assumption; discriminate.
  - induction 1 as [|c text (H1 & H2 & H3 & H4 & H5) _ IH]; [reflexivity|].
    rewrite escapeHtml_cons, IH.
    destruct (escapeChar_cases c)
      as [(_ & _ & _ & _ & _ & ->)|[[E _]|[[E _]|[[E _]|[[E _]|[E _]]]]]];
      [reflexivity|congruence..].
  - induction text as [|c text IH]; [constructor|].
    rewrite escapeHtml_cons, length_app. simpl.
    destruct (escapeChar_cases c)
      as [(_ & _ & _ & _ & _ & ->)|[[_ ->]|[[_ ->]|[[_ ->]|[[_ ->]|[_ ->]]]]]];
      simpl; lia.
Qed.

(** X10. [escapeHtml] loses nothing: two texts with the same escaped form
    are the same text. *)
Theorem escapeHtml_injective (a b : jsstring) :
  escapeHtml a = escapeHtml b -> a = b.
Proof.
  revert b. induction a as [|c a IH]; intros [|d b] H.
  - reflexivity.
  - exfalso. rewrite escapeHtml_cons in H.
    destruct (escapeChar_cases d)
      as [(_ & _ & _ & _ & _ & E)|[[_ E]|[[_ E]|[[_ E]|[[_ E]|[_ E]]]]]];
      rewrite E in H; discriminate.
  - exfalso. rewrite escapeHtml_cons in H.
    destruct (escapeChar_cases c)
      as [(_ & _ & _ & _ & _ & E)|[[_ E]|[[_ E]|[[_ E]|[[_ E]|[_ E]]]]]];
      rewrite E in H; discriminate.
  - rewrite !escapeHtml_cons in H.
    destruct (escapeChar_cases c)
      as [(C1 & C2 & C3 & C4 & C5 & Ec)|[[-> Ec]|[[-> Ec]|[[-> Ec]|[[-> Ec]|[-> Ec]]]]]];
      destruct (escapeChar_cases d)
        as [(D1 & D2 & D3 & D4 & D5 & Ed)|[[-> Ed]|[[-> Ed]|[[-> Ed]|[[-> Ed]|[-> Ed]]]]]];
      rewrite ?Ec, ?Ed in H; simpl in H;
      try discriminate;
      try (injection H as H; f_equal; now apply IH);
      try (injection H as Hhead H; congruence);
      try (injection H as Hhead H; f_equal; [exact Hhead|now apply IH]).
Qed.

Lemma escapeHtml_injective_witness :
  js "a<b" = js "a<b".
Proof.
  apply (escapeHtml_injective (js "a<b") (js "a<b")). reflexivity.
Defined.

(* ================================================================= *)
(** ** Terminal commands *)

Lemma member_In (s : jsstring) (l : list jsstring) :
  member s l = true <-> In s l.
Proof.
  unfold member. rewrite existsb_exists. split.
  - intros (x & Hx & E). apply eqb_eq in E. now subst.
  - intros H. exists s. split; [exact H|apply eqb_refl].
Qed.

Lemma mkdirStep_cases (useRelative : bool)
    (state : list jsstring * list jsstring) (f : FileObj) :
  let dir := directoryOf (treePath useRelative f) in
  ((dir = [] \/ In dir (fst state)) /\ mkdirStep useRelative state f = state)
  \/ (dir <> [] /\ ~ In dir (fst state)
      /\ mkdirStep useRelative state f
         = (fst state ++ [dir], snd state ++ [mkdirLine dir])).
Proof.
  unfold mkdirStep.
  destruct (directoryOf (treePath useRelative f)) as [|c dir] eqn:Ed;
    [left; split; [now left|reflexivity]|].
  destruct (member (c :: dir) (fst state)) eqn:Em.
  - left. split; [right; now apply member_In|reflexivity].
  - right. split; [discriminate|]. split; [|reflexivity].
    intros Hin. apply member_In in Hin. congruence.
Qed.

Lemma mkdir_fold (useRelative : bool) (fs : list FileObj) :
  forall state,
    NoDup (fst state) ->
    exists added,
      fst (fold_left (mkdirStep useRelative) fs state) = fst state ++ added
      /\ snd (fold_left (mkdirStep useRelative) fs state)
         = snd state ++ map mkdirLine added
      /\ NoDup (fst state ++ added)
      /\ forall d, In d added <->
                   ~ In d (fst state) /\ d <> []
                   /\ exists f, In f fs
                                /\ directoryOf (treePath useRelative f) = d.
Proof.
  induction fs as [|f fs IH]; intros state Hnd; simpl.
  - exists []. rewrite !app_nil_r.
    split; [reflexivity|]. split; [reflexivity|]. split; [exact Hnd|].
    intros d. split; [contradiction|]. intros (_ & _ & g & [] & _).
  - destruct (mkdirStep_cases useRelative state f)
      as [[Hold ->]|(Hne & Hfresh & ->)].
    + destruct (IH state Hnd) as (added & H1 & H2 & H3 & H4).
      exists added.
      split; [exact H1|]. split; [exact H2|]. split; [exact H3|].
      intros d. rewrite H4. split.
      * intros (Hnot & Hd & g & Hg & Hgd).
        split; [exact Hnot|]. split; [exact Hd|].
        exists g. split; [now right|exact Hgd].
      * intros (Hnot & Hd & g & [<-|Hg] & Hgd).
        -- exfalso. destruct Hold as [Hold|Hold]; [congruence|].
           apply Hnot. now rewrite <- Hgd.
        -- split; [exact Hnot|]. split; [exact Hd|]. now exists g.
    + set (dir := directoryOf (treePath useRelative f)) in *.
      destruct (IH (fst state ++ [dir], snd state ++ [mkdirLine dir]))
        as (added & H1 & H2 & H3 & H4).
      { simpl. apply NoDup_app; [exact Hnd|repeat constructor; auto|].
        intros x Hx [<-|[]]. contradiction. }
      simpl in H1, H2, H3, H4. exists (dir :: added).
      rewrite H1, H2, <- !app_assoc. simpl.
      split; [reflexivity|]. split; [reflexivity|].
      split; [now rewrite <- app_assoc in H3|].
      intros d. split.
      * intros [<-|Hd].
        -- split; [exact Hfresh|]. split; [exact Hne|].
           exists f. split; [now left|reflexivity].
        -- destruct (proj1 (H4 d) Hd) as (Hnot & Hd' & g & Hg & Hgd).
           split; [intros Hin; apply Hnot, in_or_app; now left|].
           split; [exact Hd'|]. exists g. split; [now right|exact Hgd].
      * intros (Hnot & Hd & g & Hg & Hgd).
        destruct (jsstring_eq_dec dir d) as [E|E]; [now left|right].
        apply H4. split.
        -- intros Hin. apply in_app_or in Hin as [Hin|[Hin|[]]];
             [now apply Hnot|congruence].
        -- split; [exact Hd|].
           destruct Hg as [<-|Hg]; [exfalso; apply E; exact Hgd|].
           now exists g.
Qed.

Lemma touch_fold (A : Type) (g : A -> jsstring) (l : list A) :
  forall commands,
    fold_left (fun cs x => cs ++ [g x]) l commands = commands ++ map g l.
Proof.
  induction l as [|x l IH]; intros commands; simpl.
  - now rewrite app_nil_r.
  - now rewrite IH, <- app_assoc.
Qed.

(** X11. The commands generated for a list of records are: one [mkdir -p]
    for each directory part of a path, without repetition and
    without the empty directory of paths that have no separator,
    followed by one [touch] for each record, in the order of the
    records; so every directory is created before any file is touched. *)
Theorem commands_create_each_directory_once
    (useRelative : bool) (fs : list FileObj) :
  exists directories,
    commandLines useRelative fs
    = map mkdirLine directories
      ++ map (fun f => touchLine (treePath useRelative f)) fs
    /\ NoDup directories
    /\ forall d, In d directories <->
                 d <> []
                 /\ exists f, In f fs
                              /\ directoryOf (treePath useRelative f) = d.
Proof.
  destruct (mkdir_fold useRelative fs ([], [])) as (added & H1 & H2 & H3 & H4);
    [constructor|].
  exists added. unfold commandLines. rewrite touch_fold, H2. simpl.
  split; [reflexivity|]. split; [exact H3|].
  intros d. rewrite H4. simpl. tauto.
Qed.

(* ================================================================= *)
(** ** Toasts and the error log *)

Lemma baseDuration_range (type : jsstring) :
  (3000 <= baseDuration type <= 7000)%Z.
Proof.
  unfold baseDuration.
  destruct (JS.eqb type (js "error")); [lia|].
  destruct (JS.eqb type (js "warning")); [lia|].
  destruct (JS.eqb type (js "success")); [lia|].
  destruct (JS.eqb type (js "info")); lia.
Qed.

(** X12. For a type that is not an inherited property name, a toast
    stays between 3 and 15 seconds: its duration is the base duration of
    its type (3000 ms for a type the table does not list), plus exactly
    2000 ms when the message has more than 100 characters (the term
    [min(2000, 20 * length)] is then always 2000), plus 1000 ms for each
    line break, the whole capped at 15000 ms. *)
Theorem toast_duration_formula (type message : jsstring) :
  member type inheritedNames = false ->
  getToastDuration type message
  = Z.min (baseDuration type
           + (if Z.ltb 100 (Z.of_nat (length message)) then 2000 else 0)
           + 1000 * lineCount message) 15000
  /\ (3000 <= getToastDuration type message <= 15000)%Z.
Proof.
  intros _.
  pose proof (baseDuration_range type) as Hbase.
  assert (Hlines : (0 <= lineCount message)%Z) by (unfold lineCount; lia).
  assert (Heq : getToastDuration type message
                = Z.min (baseDuration type
                         + (if Z.ltb 100 (Z.of_nat (length message))
                            then 2000 else 0)
                         + 1000 * lineCount message) 15000).
  { unfold getToastDuration.
    destruct (Z.ltb_spec 100 (Z.of_nat (length message))) as [Hlong|Hshort];
      destruct (Z.ltb_spec 0 (lineCount message)) as [Hmany|Hnone];
      f_equal; lia. }
  split; [exact Heq|]. rewrite Heq.
  destruct (Z.ltb 100 (Z.of_nat (length message))); lia.
Qed.

Lemma toast_duration_formula_witness :
  getToastDuration (js "warning") (js "2 files skipped" ++ [10%N] ++ js "a.txt")
  = 6000%Z.
Proof.
  destruct (@toast_duration_formula (js "warning")
              (js "2 files skipped" ++ [10%N] ++ js "a.txt") eq_refl)
    as [Hformula _].
  rewrite Hformula. reflexivity.
Defined.

Lemma firstn_app_firstn (A : Type) (n : nat) (pre l : list A) :
  firstn n (pre ++ firstn n l) = firstn n (pre ++ l).
Proof.
  rewrite !firstn_app. f_equal. rewrite firstn_firstn. f_equal. lia.
Qed.

(** X13. The error log never holds more than ten entries once an error
    has been tracked: after a series of errors it consists of the ten
    most recent entries, the newest first. *)
Theorem error_log_keeps_ten_newest
    (A : Type) (log : list A) (e : A) (es : list A) :
  fold_left (@trackError A) (e :: es) log
  = firstn 10 (rev (e :: es) ++ log)
  /\ length (fold_left (@trackError A) (e :: es) log) <= 10.
Proof.
  assert (H : forall l log0 e0,
             fold_left (@trackError A) (e0 :: l) log0
             = firstn 10 (rev (e0 :: l) ++ log0)).
  { induction l as [|e1 l IH]; intros log0 e0.
    - reflexivity.
    - change (fold_left (@trackError A) (e0 :: e1 :: l) log0)
        with (fold_left (@trackError A) (e1 :: l) (trackError log0 e0)).
      rewrite IH. unfold trackError.
      change (rev (e0 :: e1 :: l)) with (rev (e1 :: l) ++ [e0]).
      rewrite <- app_assoc. simpl ((_ :: _) ++ _).
      apply firstn_app_firstn. }
  rewrite H. split; [reflexivity|]. rewrite length_firstn. lia.
Qed.

(* ================================================================= *)
(** ** Selection *)

Lemma selectionAdd_In (sel : Selection) (i j : Z) :
  In j (selectionAdd sel i) <-> In j sel \/ j = i.
Proof.
  unfold selectionAdd. destruct (existsb (Z.eqb i) sel) eqn:E.
  - apply existsb_exists in E as (k & Hk & Ek). apply Z.eqb_eq in Ek.
    subst k. split; [now left|]. intros [H| ->]; assumption.
  - rewrite in_app_iff. simpl. intuition.
Qed.

Lemma selectionAdd_NoDup (sel : Selection) (i : Z) :
  NoDup sel -> NoDup (selectionAdd sel i).
Proof.
  intros Hnd. unfold selectionAdd. destruct (existsb (Z.eqb i) sel) eqn:E;
    [exact Hnd|].
  apply NoDup_app; [exact Hnd|repeat constructor; auto|].
  intros x Hx [Hi|[]]. subst x.
  assert (existsb (Z.eqb i) sel = true); [|congruence].
  apply existsb_exists. exists i. split; [exact Hx|apply Z.eqb_refl].
Qed.

Lemma selectAll_fold (fs : list FileObj) :
  forall sel,
    NoDup sel ->
    NoDup (fold_left (fun s file => selectionAdd s (id file)) fs sel)
    /\ forall i,
         In i (fold_left (fun s file => selectionAdd s (id file)) fs sel) <->
         In i sel \/ exists f, In f fs /\ id f = i.
Proof.
  induction fs as [|f fs IH]; intros sel Hnd; simpl.
  - split; [exact Hnd|]. intros i. split; [now left|].
    intros [H|(g & [] & _)]. exact H.
  - destruct (IH (selectionAdd sel (id f)) (selectionAdd_NoDup _ Hnd))
      as [H1 H2].
    split; [exact H1|]. intros i. rewrite H2, selectionAdd_In. split.
    + intros [[H| ->]|(g & Hg & Hi)]; auto.
      * right. exists f. split; [now left|reflexivity].
      * right. exists g. split; [now right|exact Hi].
    + intros [H|(g & [<-|Hg] & Hi)]; auto.
      right. now exists g.
Qed.

Lemma select_all_selects_the_store_aux (fs : list FileObj) (sel : Selection) :
  (fs <> [] -> selectAllFiles fs sel <> [])
  /\ forall i, (exists f, In f fs /\ id f = i) -> In i (selectAllFiles fs sel).
Proof.
  destruct fs as [|f fs]; [split; [congruence|intros i (g & [] & _)]|].
  unfold selectAllFiles.
  destruct (selectAll_fold (f :: fs) (@NoDup_nil Z)) as [_ H2].
  assert (Hall : forall i, (exists g, In g (f :: fs) /\ id g = i) ->
            In i (fold_left (fun s file => selectionAdd s (id file))
                    (f :: fs) [])).
  { intros i Hi. apply H2. now right. }
  split; [|exact Hall].
  intros _ E.
  specialize (Hall (id f) (ex_intro _ f (conj (or_introl eq_refl) eq_refl))).
  rewrite E in Hall. contradiction.
Qed.

(** X14. On a store that is not empty, [selectAllFiles] replaces the
    selection, whatever it was, by the ids of the records of the store,
    each once; on an empty store it leaves the selection alone. *)
Theorem select_all_selects_the_store (fs : list FileObj) (sel : Selection) :
  (fs = [] -> selectAllFiles fs sel = sel)
  /\ (fs <> [] ->
      NoDup (selectAllFiles fs sel)
      /\ forall i, In i (selectAllFiles fs sel) <->
                   exists f, In f fs /\ id f = i).
Proof.
  split; [now intros ->|]. intros Hne.
  destruct fs as [|f fs]; [congruence|].
  unfold selectAllFiles.
  destruct (selectAll_fold (f :: fs) (@NoDup_nil Z)) as [H1 H2].
  split; [exact H1|]. intros i. rewrite H2. simpl. tauto.
Qed.

(** X15. [deleteSelectedFiles] keeps, in their order, exactly the records
    whose id is not selected, and leaves the selection empty; after
    [selectAllFiles] it leaves an empty store. *)
Theorem delete_selected_removes_the_selected
    (fs : list FileObj) (sel : Selection) :
  fst (deleteSelectedFiles fs sel)
  = filter (fun f => negb (existsb (Z.eqb (id f)) sel)) fs
  /\ (forall f, In f (fst (deleteSelectedFiles fs sel)) <->
                In f fs /\ ~ In (id f) sel)
  /\ snd (deleteSelectedFiles fs sel) = []
  /\ deleteSelectedFiles fs (selectAllFiles fs sel) = ([], []).
Proof.
  assert (Hfst : fst (deleteSelectedFiles fs sel)
                 = filter (fun f => negb (existsb (Z.eqb (id f)) sel)) fs).
  { unfold deleteSelectedFiles. destruct sel as [|i sel]; [|reflexivity].
    simpl. induction fs as [|f fs IH]; simpl; [reflexivity|].
    now rewrite <- IH. }
  split; [exact Hfst|]. split; [|split].
  - intros f. rewrite Hfst, filter_In, negb_true_iff.
    apply and_iff_compat_l. split.
    + intros Hnone Hin.
      assert (existsb (Z.eqb (id f)) sel = true); [|congruence].
      apply existsb_exists. exists (id f). split; [exact Hin|apply Z.eqb_refl].
    + intros Hnot. destruct (existsb (Z.eqb (id f)) sel) eqn:E;
        [|reflexivity].
      apply existsb_exists in E as (k & Hk & Ek). apply Z.eqb_eq in Ek.
      subst k. contradiction.
  - unfold deleteSelectedFiles. now destruct sel.
  - destruct fs as [|f0 fs]; [now destruct sel|].
    destruct (select_all_selects_the_store_aux (f0 :: fs) sel) as [Hne Hall].
    unfold deleteSelectedFiles.
    destruct (selectAllFiles (f0 :: fs) sel) as [|i rest] eqn:E;
      [exfalso; apply Hne; [discriminate|reflexivity]|].
    f_equal. apply filter_none. intros f Hf. apply negb_false_iff.
    apply existsb_exists. exists (id f).
    split; [apply Hall; now exists f|apply Z.eqb_refl].
Qed.

(* ================================================================= *)
(** ** More on reordering and deleting *)


Lemma spliceIn_nth (A : Type) (l : list A) (pos : nat) (x : A) :
  pos <= length l ->
  nth_error (spliceIn pos x l) pos = Some x
  /\ spliceOut pos (spliceIn pos x l) = l.
Proof.
  intros Hpos.
  assert (Hsplit : exists a b, l = a ++ b /\ length a = pos).
  { exists (firstn pos l), (skipn pos l).
    split; [symmetry; apply firstn_skipn|rewrite length_firstn; lia]. }
  destruct Hsplit as (a & b & -> & <-).
  rewrite spliceIn_middle, nth_error_middle, spliceOut_middle.
  split; reflexivity.
Qed.

Lemma spliceOut_length (A : Type) (l : list A) (n : nat) :
  n < length l -> S (length (spliceOut n l)) = length l.
Proof.
  intros H. unfold spliceOut.
  rewrite length_app, length_firstn, length_skipn. lia.
Qed.

(** X17. With the list displayed in full, dragging the block at [i] onto
    the block at [j] puts the record in front of the record that was at
    [j]: it ends at index [j - 1] when it was dragged down and at
    index [j] when it was dragged up, and the other records keep their
    relative order; dragged onto its next neighbour, it does not move at
    all. *)
Theorem dragged_record_lands_before_target
    (toLowerCase : jsstring -> jsstring) (m : Manager) (i j : nat)
    (x : FileObj) :
  currentView m = ListView -> searchTerm m = [] ->
  i < length (files m) -> j < length (files m) -> i <> j ->
  nth_error (files m) i = Some x ->
  let after := files (handleDragDrop toLowerCase m i j) in
  let landing := if i <? j then j - 1 else j in
  nth_error after landing = Some x
  /\ spliceOut landing after = spliceOut i (files m)
  /\ (j = S i -> after = files m).
Proof.
  intros Hview Hterm Hi Hj Hij Hx after landing.
  assert (Hafter : after = spliceIn landing x (spliceOut i (files m))).
  { unfold after. rewrite handleDragDrop_move by assumption.
    rewrite files_setFiles. unfold reorder. now rewrite Hx. }
  pose proof (spliceOut_length (files m) Hi) as Hlen.
  assert (Hpos : landing <= length (spliceOut i (files m))).
  { unfold landing. destruct (Nat.ltb_spec i j); lia. }
  destruct (spliceIn_nth (spliceOut i (files m)) x Hpos) as [Hnth Hout].
  rewrite Hafter. split; [exact Hnth|]. split; [exact Hout|].
  intros ->. unfold landing.
  replace (i <? S i) with true by (symmetry; apply Nat.ltb_lt; lia).
  replace (S i - 1) with i by lia.
  rewrite (firstn_skipn_nth (files m) i Hx) at 2.
  unfold spliceIn, spliceOut.
  rewrite firstn_app, length_firstn, Nat.min_l, Nat.sub_diag by lia.
  rewrite firstn_firstn, Nat.min_id. simpl. rewrite app_nil_r.
  f_equal. f_equal.
  rewrite skipn_app, length_firstn, Nat.min_l, Nat.sub_diag by lia.
  rewrite skipn_firstn_comm, Nat.sub_diag. reflexivity.
Qed.

Lemma findIndex_split (fs : list FileObj) (fileId : Z) :
  match findIndex fs fileId with
  | None => findFile fs fileId = None
  | Some n =>
      exists before f rest,
        fs = before ++ f :: rest /\ length before = n
        /\ findFile fs fileId = Some f
        /\ forall g, In g before -> id g <> fileId
  end.
Proof.
  induction fs as [|g fs IH]; simpl; [reflexivity|].
  unfold findFile. simpl.
  destruct (Z.eqb (id g) fileId) eqn:E.
  - exists [], g, fs. repeat split. intros h [].
  - fold (findFile fs fileId).
    destruct (findIndex fs fileId) as [n|]; simpl; [|exact IH].
    destruct IH as (before & f & rest & -> & Hlen & Hf & Hbefore).
    exists (g :: before), f, rest. simpl.
    split; [reflexivity|]. split; [now rewrite Hlen|]. split; [exact Hf|].
    intros h [<-|Hh]; [now apply Z.eqb_neq|now apply Hbefore].
Qed.

(** X18. [deleteFile] for an id that no record has reports that the file
    was not found and changes nothing; for an id that is in the store it
    removes the first record with that id, and only that record, the
    others keeping their order; when ids are unique the id is then gone
    and a second deletion reports that the file was not found. *)
Theorem delete_file_removes_one_record (m : Manager) (fileId : Z) :
  (findFile (files m) fileId = None ->
   deleteFile m fileId = (m, Some FileNotFound))
  /\ (forall f,
        findFile (files m) fileId = Some f ->
        exists before rest,
          files m = before ++ f :: rest
          /\ (forall g, In g before -> id g <> fileId)
          /\ deleteFile m fileId = (setFiles m (before ++ rest), None)
          /\ (NoDup (map id (files m)) ->
              deleteFile (fst (deleteFile m fileId)) fileId
              = (fst (deleteFile m fileId), Some FileNotFound))).
Proof.
  pose proof (findIndex_split (files m) fileId) as H.
  unfold deleteFile. destruct (findIndex (files m) fileId) as [n|] eqn:En.
  - destruct H as (before & f & rest & Hfs & Hlen & Hf & Hbefore).
    split; [congruence|]. intros f' Hf'.
    assert (f' = f) by congruence. subst f'.
    exists before, rest. split; [exact Hfs|]. split; [exact Hbefore|].
    assert (Hout : spliceOut n (files m) = before ++ rest).
    { rewrite Hfs, <- Hlen. apply spliceOut_middle. }
    rewrite Hout. split; [reflexivity|].
    intros Hnd. cbn [fst files setFiles].
    pose proof (findIndex_split (before ++ rest) fileId) as H2.
    destruct (findIndex (before ++ rest) fileId) as [k|]; [|reflexivity].
    exfalso. destruct H2 as (b2 & g & r2 & Hsplit & _ & Hg & _).
    apply findFile_id in Hg as [Hin Hid].
    apply findFile_id in Hf as [_ Hfid].
    rewrite Hfs, map_app in Hnd. simpl in Hnd.
    apply NoDup_remove_2 in Hnd. apply Hnd.
    rewrite <- map_app, Hfid, <- Hid. now apply in_map.
  - split; [reflexivity|]. intros f Hf. congruence.
Qed.

(* ================================================================= *)
(** ** More on renaming and editing *)

Lemma rename_rejected_keeps_store_witness :
  fst (saveFileName (renderFiles asciiLowerCase nestedNote) (js "a/b")
         nestedNote 1) = nestedNote.
Proof.
  apply (rename_rejected_keeps_store
           (renderFiles asciiLowerCase nestedNote) (js "a/b") nestedNote 1).
  right. reflexivity.
Defined.

Lemma trimStart_head (text : jsstring) (c : N) (rest : jsstring) :
  trimStart text = c :: rest -> isWhiteSpace c = false.
Proof.
  induction text as [|d text IH]; simpl; [discriminate|].
  destruct (isWhiteSpace d) eqn:E; [exact IH|].
  intros [= <- _]. exact E.
Qed.

Lemma trimStart_suffix (text : jsstring) :
  exists before, text = before ++ trimStart text.
Proof.
  induction text as [|d text [before IH]]; simpl; [now exists []|].
  destruct (isWhiteSpace d); [|now exists []].
  exists (d :: before). simpl. now rewrite <- IH.
Qed.

Lemma trim_ends (text : jsstring) :
  (forall c rest, trim text = c :: rest -> isWhiteSpace c = false)
  /\ (forall c front, trim text = front ++ [c] -> isWhiteSpace c = false).
Proof.
  unfold trim. split.
  - intros c rest H.
    destruct (trimStart_suffix (rev (trimStart text))) as [before Hsuf].
    apply (f_equal (@rev N)) in H. rewrite rev_involutive in H.
    rewrite H in Hsuf. apply (f_equal (@rev N)) in Hsuf.
    rewrite rev_involutive, rev_app_distr, rev_involutive in Hsuf.
    simpl in Hsuf. exact (trimStart_head _ Hsuf).
  - intros c front H.
    apply (f_equal (@rev N)) in H.
    rewrite rev_involutive, rev_app_distr in H. simpl in H.
    exact (trimStart_head _ H).
Qed.

Lemma split_single (sep : N) (text : jsstring) :
  Forall (fun c => c <> sep) text -> split sep text = [text].
Proof.
  induction 1 as [|c text Hc _ IH]; simpl; [reflexivity|].
  apply N.eqb_neq in Hc. now rewrite Hc, IH.
Qed.

Lemma lastIndexOfAt_absent (sep : N) (text : jsstring) :
  Forall (fun c => c <> sep) text ->
  forall pos, lastIndexOfAt sep text pos = None.
Proof.
  induction 1 as [|c text Hc _ IH]; intros pos; simpl; [reflexivity|].
  rewrite IH. apply not_eq_sym in Hc. apply N.eqb_neq in Hc. now rewrite Hc.
Qed.

Lemma no_reserved_no_separator (text : jsstring) :
  testClass reservedChar text = false -> Forall (fun c => c <> 47%N) text.
Proof.
  unfold testClass. induction text as [|c text IH]; simpl; [constructor|].
  intros H. apply orb_false_iff in H as [Hc Ht].
  constructor; [|now apply IH]. intros ->. discriminate.
Qed.

(** X20. The name stored by a successful rename is not empty, has no
    reserved character, and neither starts nor ends with white space;
    as it cannot hold a separator, the renamed record has a path of one
    segment in the tree, under either path setting, and no directory is
    created for it by the generated commands. *)
Theorem renamed_record_is_top_level
    (doc : Document) (inputValue : jsstring) (m m' : Manager) (fileId : Z)
    (newName : jsstring) :
  saveFileName doc inputValue m fileId = (m', RenamedTo newName) ->
  newName <> []
  /\ testClass reservedChar newName = false
  /\ (forall c rest, newName = c :: rest -> isWhiteSpace c = false)
  /\ (forall c front, newName = front ++ [c] -> isWhiteSpace c = false)
  /\ exists f',
       findFile (files m') fileId = Some f'
       /\ forall useRelative,
            split 47 (treePath useRelative f') = [newName]
            /\ directoryOf (treePath useRelative f') = [].
Proof.
  unfold saveFileName.
  destruct (negb (getElementById doc (NameDisplay fileId))
            || negb (getElementById doc (NameInput fileId)));
    [discriminate|].
  destruct (findFile (files m) fileId) as [f|] eqn:Ef; [|discriminate].
  destruct (trim inputValue) as [|c rest] eqn:Et; [discriminate|].
  destruct (testClass reservedChar (c :: rest)) eqn:Er; [discriminate|].
  intros [= <- <-]. rewrite files_setFiles.
  destruct (trim_ends inputValue) as [Hfirst Hlast]. rewrite Et in *.
  split; [discriminate|]. split; [exact Er|].
  split; [exact Hfirst|]. split; [exact Hlast|].
  exists (setRelativePath (setName f (c :: rest)) (c :: rest)).
  rewrite mutateFile_found, Ef by reflexivity.
  split; [reflexivity|]. intros useRelative.
  pose proof (no_reserved_no_separator _ Er) as Hsep.
  assert (Hpath : treePath useRelative
                    (setRelativePath (setName f (c :: rest)) (c :: rest))
                  = c :: rest) by (now destruct useRelative).
  rewrite Hpath. split; [now apply split_single|].
  unfold directoryOf, lastIndexOf. now rewrite lastIndexOfAt_absent.
Qed.

Lemma renamed_record_is_top_level_witness :
  exists f',
    findFile (files renamedNote) 1 = Some f'
    /\ split 47 (treePath true f') = [js "b.txt"].
Proof.
  destruct (@renamed_record_is_top_level
              (renderFiles asciiLowerCase nestedNote) (js " b.txt ")
              nestedNote renamedNote 1 (js "b.txt") eq_refl)
    as (_ & _ & _ & _ & f' & Hf' & Hpath).
  exists f'. split; [exact Hf'|apply Hpath].
Defined.

Lemma utf8Length_cons (c : N) (rest : jsstring) :
  utf8Length (c :: rest)
  = if (c <? 128)%N then 1 + utf8Length rest
    else if (c <? 2048)%N then 2 + utf8Length rest
    else if isHighSurrogate c then
      match rest with
      | d :: rest' =>
          if isLowSurrogate d then 4 + utf8Length rest'
          else 3 + utf8Length rest
      | [] => 3
      end
    else 3 + utf8Length rest.
Proof. reflexivity. Qed.

Lemma utf8Length_bounds (n : nat) :
  forall text, length text <= n ->
               length text <= utf8Length text <= 3 * length text.
Proof.
  induction n as [|n IH]; intros [|c rest] Hlen; simpl in Hlen;
    try (simpl; lia).
  rewrite utf8Length_cons.
  assert (Hrest := IH rest ltac:(lia)).
  destruct (c <? 128)%N; [simpl length; lia|].
  destruct (c <? 2048)%N; [simpl length; lia|].
  destruct (isHighSurrogate c); [|simpl length; lia].
  destruct rest as [|d rest']; [simpl; lia|].
  destruct (isLowSurrogate d); [|simpl length in *; lia].
  assert (Hrest' := IH rest' ltac:(simpl in Hlen; lia)).
  simpl length. lia.
Qed.

(** X21. After a successful edit the record holds the new text, and the
    size stored for it is the number of UTF-16 code units of the text:
    it equals the UTF-8 byte length for a text of ASCII characters, and
    in general it is at most the byte length and at least a third of it.
    The ids and the positions of all records are unchanged, and so is
    every record with another id. *)
Theorem edit_size_versus_byte_length
    (doc : Document) (value : jsstring) (m m' : Manager) (fileId : Z) :
  saveFileContent doc value m fileId = (m', ContentUpdated) ->
  (exists f',
     findFile (files m') fileId = Some f'
     /\ content f' = Str value
     /\ (size f' <= Z.of_nat (utf8Length value) <= 3 * size f')%Z
     /\ (Forall (fun c => (c < 128)%N) value ->
         size f' = Z.of_nat (utf8Length value)))
  /\ map id (files m') = map id (files m)
  /\ forall k g, nth_error (files m) k = Some g -> id g <> fileId ->
                 nth_error (files m') k = Some g.
Proof.
  intros Hok.
  destruct (saveFileContent_updated _ _ _ _ Hok) as [_ (f & Hf & Hf')].
  pose proof (@utf8Length_bounds (length value) value (le_n _)) as Hbytes.
  split.
  - eexists. split; [exact Hf'|].
    cbn [size content setSize setContent]. split; [reflexivity|].
    split; [lia|]. intros Hascii. now rewrite utf8Length_ascii.
  - unfold saveFileContent in Hok.
    destruct (negb (getElementById doc (ContentDisplay fileId))
              || negb (getElementById doc (ContentTextarea fileId)));
      [discriminate|].
    destruct (findFile (files m) fileId); [|discriminate].
    injection Hok as <-. rewrite files_setFiles. split.
    + now apply mutateFile_ids.
    + intros k g Hk Hid. now apply mutateFile_others.
Qed.

Lemma edit_size_versus_byte_length_witness :
  exists f',
    findFile
      (files (fst (saveFileContent (renderFiles asciiLowerCase photoAndNote)
                     (js "abc") photoAndNote (id note)))) (id note)
    = Some f'
    /\ size f' = 3%Z.
Proof.
  destruct (@edit_size_versus_byte_length
              (renderFiles asciiLowerCase photoAndNote) (js "abc")
              photoAndNote
              (fst (saveFileContent (renderFiles asciiLowerCase photoAndNote)
                      (js "abc") photoAndNote (id note)))
              (id note) eq_refl)
    as [(f' & Hf' & _ & _ & Hascii) _].
  exists f'. split; [exact Hf'|].
  rewrite Hascii; [reflexivity|].
  repeat constructor.
Defined.

(* ================================================================= *)
(** ** Records in the tree *)

Lemma isPrefix_refl (p : list jsstring) : isPrefix p p = true.
Proof. induction p as [|s p IH]; simpl; [reflexivity|]. now rewrite eqb_refl. Qed.

Lemma split_not_nil (sep : N) (text : jsstring) : split sep text <> [].
Proof.
  destruct text as [|c text]; simpl; [discriminate|].
  destruct (N.eqb c sep); [discriminate|].
  destruct (split sep text); discriminate.
Qed.

(** A walk leaves alone the places that are not on its path. *)
Lemma insertParts_elsewhere (p : list jsstring) :
  forall (tree : TreeNode) (q : list jsstring) (file : FileObj),
    nodeAt p tree = None -> isPrefix p q = false ->
    nodeAt p (insertParts q file tree) = None.
Proof.
  induction p as [|s p IH]; intros tree q file Hp Hq; [discriminate|].
  destruct q as [|t q]; [exact Hp|]. simpl in *.
  destruct (jsstring_eq_dec t s) as [->|Hne].
  - rewrite eqb_refl in Hq. simpl in Hq.
    rewrite getEntry_setEntry_same.
    destruct (getEntry s (entries tree)) as [item|]; [now apply IH|].
    apply IH; [|exact Hq].
    destruct p as [|s' p]; [discriminate|].
    now destruct q.
  - rewrite getEntry_setEntry_other by exact Hne. exact Hp.
Qed.

Lemma buildFileTreeFrom_resolves (useRelative : bool) (f : FileObj)
    (fs : list FileObj) :
  forall tree,
    In f fs ->
    exists n,
      nodeAt (split 47 (treePath useRelative f))
        (buildFileTreeFrom useRelative tree fs) = Some n.
Proof.
  induction fs as [|g fs IH]; intros tree Hin; [contradiction|].
  destruct Hin as [->|Hin]; [|now apply IH].
  simpl. set (parts := split 47 (treePath useRelative f)).
  assert (Hone : exists n, nodeAt parts (insertFile useRelative tree f)
                           = Some n).
  { unfold insertFile. fold parts.
    destruct (nodeAt parts tree) as [n|] eqn:E.
    - exists n. now rewrite (insertParts_taken parts tree f E).
    - destruct (insertParts_free parts tree f E) as (n & Hn & _).
      now exists n. }
  destruct Hone as [n Hn].
  destruct (buildFileTreeFrom_keeps useRelative fs _ parts Hn) as (n' & Hn' & _).
  now exists n'.
Qed.

Lemma buildFileTreeFrom_places (useRelative : bool) (f : FileObj)
    (fs : list FileObj) :
  forall tree,
    In f fs ->
    (forall g, In g fs ->
               isPrefix (split 47 (treePath useRelative f))
                 (split 47 (treePath useRelative g)) = true -> g = f) ->
    nodeAt (split 47 (treePath useRelative f)) tree = None ->
    exists n,
      nodeAt (split 47 (treePath useRelative f))
        (buildFileTreeFrom useRelative tree fs) = Some n
      /\ payload n = Some f.
Proof.
  set (parts := split 47 (treePath useRelative f)).
  induction fs as [|g fs IH]; intros tree Hin Hfree Hnone; [contradiction|].
  simpl.
  destruct (isPrefix parts (split 47 (treePath useRelative g))) eqn:E.
  - assert (g = f) by (apply Hfree; [now left|exact E]). subst g.
    destruct (insertParts_free parts tree f Hnone) as (n & Hn & Hp).
    destruct (buildFileTreeFrom_keeps useRelative fs _ parts Hn)
      as (n' & Hn' & Hp').
    exists n'. split; [exact Hn'|congruence].
  - apply IH.
    + destruct Hin as [->|Hin]; [|exact Hin].
      unfold parts in E. now rewrite isPrefix_refl in E.
    + intros h Hh. apply Hfree. now right.
    + now apply insertParts_elsewhere.
Qed.

(** X22. For paths whose segments are plain property names: after the
    tree has been built, the path of every record leads to a node; and a
    record whose path is neither the path of another record nor the
    beginning of one is the leaf at the end of its path, so that no
    record is lost as long as paths do not collide. *)
Theorem tree_places_every_record
    (useRelative : bool) (fs : list FileObj) (f : FileObj) :
  plainSegments useRelative fs -> In f fs ->
  let parts := split 47 (treePath useRelative f) in
  (exists n, nodeAt parts (buildFileTree useRelative fs) = Some n)
  /\ ((forall g, In g fs ->
                 isPrefix parts (split 47 (treePath useRelative g)) = true ->
                 g = f) ->
      exists n, nodeAt parts (buildFileTree useRelative fs) = Some n
                /\ payload n = Some f).
Proof.
  intros _ Hin parts. split.
  - now apply buildFileTreeFrom_resolves.
  - intros Hfree. apply buildFileTreeFrom_places; [exact Hin|exact Hfree|].
    destruct (split 47 (treePath useRelative f)) as [|s rest] eqn:E;
      [now apply split_not_nil in E|reflexivity].
Qed.

Lemma tree_places_every_record_witness :
  exists n,
    nodeAt [js "a"; js "b"]
      (buildFileTree true [namedLikeFolder; inFolder]) = Some n
    /\ payload n = Some inFolder.
Proof.
  assert (Hplain : plainSegments true [namedLikeFolder; inFolder]).
  { intros f part [<-|[<-|[]]] Hpart; vm_compute in Hpart;
      repeat (destruct Hpart as [<-|Hpart]; [reflexivity|]);
      contradiction. }
  assert (Hin : In inFolder [namedLikeFolder; inFolder])
    by (right; now left).
  destruct (@tree_places_every_record true [namedLikeFolder; inFolder]
              inFolder Hplain Hin) as [_ Hleaf].
  apply Hleaf.
  intros g [<-|[<-|[]]] Hprefix; [discriminate Hprefix|reflexivity].
Defined.

(* ================================================================= *)
(** ** Records without a block *)





(* ================================================================= *)
(** ** Dropped directories *)

Lemma Entry_induction (P : Entry -> Prop) :
  (forall entryName file, P (FileEntry entryName file)) ->
  (forall entryName children,
      Forall P children -> P (DirectoryEntry entryName children)) ->
  P OtherEntry ->
  forall entry, P entry.
Proof.
  intros Hfile Hdir Hother.
  fix self 1. intros [entryName file|entryName children|].
  - apply Hfile.
  - apply Hdir. induction children as [|child children IH];
      constructor; [apply self|exact IH].
  - exact Hother.
Qed.

Lemma collectEntryFiles_directory (entryName : jsstring)
    (children : list Entry) (path : jsstring) :
  collectEntryFiles (DirectoryEntry entryName children) path
  = flat_map (fun child => collectEntryFiles child (path ++ entryName ++ [47%N]))
      children.
Proof.
  induction children as [|child children IH]; [reflexivity|].
  cbn [flat_map]. rewrite <- IH. reflexivity.
Qed.

Lemma entryPaths_directory (entryName : jsstring) (children : list Entry) :
  entryPaths (DirectoryEntry entryName children)
  = map (cons entryName) (flat_map entryPaths children).
Proof.
  reflexivity.
Qed.

Lemma namesWithout_directory (sep : N) (entryName : jsstring)
    (children : list Entry) :
  namesWithout sep (DirectoryEntry entryName children) <->
  Forall (fun c => c <> sep) entryName
  /\ Forall (namesWithout sep) children.
Proof.
  cbn [namesWithout]. apply and_iff_compat_l.
  induction children as [|child children IH].
  - split; [constructor|trivial].
  - rewrite IH. split.
    + intros [H1 H2]. now constructor.
    + intros H. inversion H; subst. now split.
Qed.

Lemma entryPaths_not_nil (entry : Entry) (segments : list jsstring) :
  In segments (entryPaths entry) -> segments <> [].
Proof.
  destruct entry as [entryName [file|]|entryName children|].
  - intros [<-|[]]. discriminate.
  - contradiction.
  - rewrite entryPaths_directory. intros H.
    apply in_map_iff in H as (rest & <- & _). discriminate.
  - contradiction.
Qed.

Lemma join_cons (sep line : jsstring) (rest : list jsstring) :
  rest <> [] -> join sep (line :: rest) = line ++ sep ++ join sep rest.
Proof. destruct rest; [congruence|reflexivity]. Qed.

Lemma split_app_separator (sep : N) (segment rest : jsstring) :
  Forall (fun c => c <> sep) segment ->
  split sep (segment ++ sep :: rest) = segment :: split sep rest.
Proof.
  induction 1 as [|c segment Hc _ IH]; simpl.
  - now rewrite N.eqb_refl.
  - apply N.eqb_neq in Hc. now rewrite Hc, IH.
Qed.

(** Splitting a path made of separator-free segments gives the segments
    back. *)
Lemma split_join (sep : N) (segments : list jsstring) :
  segments <> [] ->
  Forall (Forall (fun c => c <> sep)) segments ->
  split sep (join [sep] segments) = segments.
Proof.
  induction segments as [|s segments IH]; intros Hne Hall; [congruence|].
  inversion Hall as [|? ? Hs Hrest]; subst.
  destruct segments as [|s' segments]; [now apply split_single|].
  rewrite join_cons by discriminate. simpl app.
  rewrite split_app_separator by exact Hs.
  f_equal. apply IH; [discriminate|exact Hrest].
Qed.

Lemma entryPaths_separator_free (sep : N) (entry : Entry) :
  namesWithout sep entry ->
  forall segments,
    In segments (entryPaths entry) ->
    Forall (Forall (fun c => c <> sep)) segments.
Proof.
  induction entry as [entryName file|entryName children IH|]
    using Entry_induction; intros Hnames segments Hin.
  - destruct file; [|contradiction]. destruct Hin as [<-|[]].
    repeat constructor. exact Hnames.
  - rewrite entryPaths_directory in Hin.
    apply namesWithout_directory in Hnames as [Hname Hchildren].
    apply in_map_iff in Hin as (rest & <- & Hin).
    constructor; [exact Hname|].
    apply in_flat_map in Hin as (child & Hchild & Hin).
    rewrite Forall_forall in IH, Hchildren.
    exact (IH child Hchild (Hchildren child Hchild) rest Hin).
  - contradiction.
Qed.

Lemma collectEntryFiles_paths (entry : Entry) :
  forall path,
    map rawRelativePath (collectEntryFiles entry path)
    = map (fun segments => Some (path ++ join [47%N] segments))
        (entryPaths entry).
Proof.
  induction entry as [entryName file|entryName children IH|]
    using Entry_induction; intros path.
  - destruct file; reflexivity.
  - rewrite collectEntryFiles_directory, entryPaths_directory, map_map.
    induction IH as [|child children Hchild _ IHc]; [reflexivity|].
    cbn [flat_map]. rewrite !map_app, IHc, Hchild. f_equal.
    apply map_ext_in. intros segments Hin.
    rewrite join_cons by exact (@entryPaths_not_nil _ _ Hin).
    now rewrite <- !app_assoc.
  - reflexivity.
Qed.

(** X24. The files collected from a dropped entry are the files found
    under it whose read succeeds, in reading order, each with a relative
    path made of the given prefix and the names on the way to the file
    joined by [/]; when no name holds a [/], splitting the relative path
    of a file collected at the top of a drop gives back exactly these
    names, the segments at which the tree places the record. *)
Theorem collected_files_carry_their_path (entry : Entry) (path : jsstring) :
  map rawRelativePath (collectEntryFiles entry path)
  = map (fun segments => Some (path ++ join [47%N] segments))
      (entryPaths entry)
  /\ (namesWithout 47 entry ->
      map (fun file => option_map (split 47) (rawRelativePath file))
        (collectEntryFiles entry [])
      = map Some (entryPaths entry)).
Proof.
  split; [apply collectEntryFiles_paths|].
  intros Hnames.
  rewrite <- (map_map rawRelativePath (option_map (split 47))).
  rewrite collectEntryFiles_paths, map_map.
  apply map_ext_in. intros segments Hin. simpl. f_equal.
  apply split_join; [exact (@entryPaths_not_nil _ _ Hin)|].
  exact (@entryPaths_separator_free _ _ Hnames _ Hin).
Qed.

(* ================================================================= *)
(** ** The properties at work on the example stores *)

Lemma ingested_records_passed_validation_witness :
  (size ingestedText <= maxFileSize)%Z
  /\ testClass reservedOrControlChar (name ingestedText) = false.
Proof.
  assert (Hin : In ingestedText (files (ingestText twoNotes oneTextFile))).
  { right. right. left. reflexivity. }
  destruct (@ingested_records_passed_validation asciiLowerCase
              (fun _ => None) (fun _ => None) (fun _ => Some (js "xyz"))
              (fun _ => 3%Z) twoNotes oneTextFile ingestedText Hin)
    as [Hold|(_ & Hmax & _ & Hname & _)].
  - exfalso. destruct Hold as [H|[H|[]]]; discriminate H.
  - split; assumption.
Defined.

Lemma reingestion_adds_nothing_witness :
  files (ingestText (ingestText twoNotes oneTextFile) oneTextFile)
  = files (ingestText twoNotes oneTextFile).
Proof.
  apply (@reingestion_adds_nothing asciiLowerCase
           (fun _ => None) (fun _ => None) (fun _ => Some (js "xyz"))
           (fun _ => 3%Z) twoNotes oneTextFile).
  intros file [<-|[]] _. discriminate.
Defined.

Lemma ingested_record_rendering_witness :
  createFileContentDisplay
    (makeFileObj (fun _ => 9%Z) pdfNamedHtml (Buf [37%N; 80%N])) = None.
Proof.
  assert (Hread : readFile (fun _ => None) (fun _ => Some [37%N; 80%N])
                    (fun _ => None) pdfNamedHtml
                  = Some (Buf [37%N; 80%N])) by reflexivity.
  destruct (@ingested_record_rendering
              (fun _ => None) (fun _ => Some [37%N; 80%N]) (fun _ => None)
              (fun _ => 9%Z) pdfNamedHtml (Buf [37%N; 80%N]) Hread)
    as [_ [_ Hthrows]].
  apply Hthrows. split; [reflexivity|]. now exists [37%N; 80%N].
Defined.

Lemma navigation_round_trip_witness :
  navigateSearch (navigateSearch searchedForPng (js "next")) (js "prev")
  = searchedForPng.
Proof.
  assert (Hidx : currentMatchIndex searchedForPng
                 < length (searchMatches searchedForPng)).
  { change (0 < 2). lia. }
  destruct (@navigation_round_trip searchedForPng Hidx) as [Hback _].
  exact Hback.
Defined.


Lemma match_positions_exact_witness :
  In 1 (getMatchPositions asciiLowerCase (js "AAA") (js "aa")).
Proof.
  destruct (@match_positions_exact asciiLowerCase (js "AAA") (js "aa"))
    as [_ Hexact]; [discriminate|discriminate|].
  apply Hexact. split; [simpl; lia|]. now exists [].
Defined.

Lemma dragged_record_lands_before_target_witness :
  option_map id
    (nth_error (files (handleDragDrop asciiLowerCase threeNotes 0 2)) 1)
  = Some 1%Z.
Proof.
  assert (H3 : length (files threeNotes) = 3) by reflexivity.
  destruct (@dragged_record_lands_before_target asciiLowerCase threeNotes 0 2
              (exampleFile 1 "a.txt" "a.txt" "text/plain" (Str (js "alpha"))
                 false false false))
    as [Hlanding _];
    [reflexivity|reflexivity|rewrite H3; lia|rewrite H3; lia|lia|reflexivity|].
  exact (f_equal (option_map id) Hlanding).
Defined.

